(** * The ql adapter of upper.io/db: execution wrapper and schema introspection

    A shallow embedding of [ql/database.go]: the three execution
    primitives [doExec], [doQuery], [doQueryRow] with their implicit
    transaction policy and placeholder renumbering, session cloning and
    [Transaction], and the catalog introspection of [Collections],
    [tableExists] and [Collection].

    The database/sql driver, the statement compiler of [sqlgen] and the
    row decoder of [sqlutil] are collaborators of the file: they appear
    as parameters of the development, and every theorem holds whatever
    they answer. *)

From Stdlib Require Import Ascii String Decimal DecimalString.
From stdpp Require Import base option list strings gmap.

(** Let [simpl] compute string concatenation on constructors. *)
#[local] Arguments String.append : simpl nomatch.
#[local] Arguments Ascii.eqb : simpl never.
#[local] Arguments String.eqb : simpl never.

(** ** Go's [strings] and [fmt] functions used by the file *)

Module GoStrings.

(** [strip_prefix p s] is [Some rest] when [s = p ++ rest]. *)
Fixpoint strip_prefix (p s : string) : option string :=
  match p with
  | EmptyString => Some s
  | String a p' =>
      match s with
      | EmptyString => None
      | String b s' => if Ascii.eqb a b then strip_prefix p' s' else None
      end
  end.

(** [strings.Replace(s, old, new, 1)]: the first instance of [old] in
    [s] is replaced by [new]; [s] is returned as it is when [old] does
    not occur. *)
Fixpoint Replace1 (s old new : string) : string :=
  match strip_prefix old s with
  | Some rest => new +:+ rest
  | None =>
      match s with
      | EmptyString => EmptyString
      | String c s' => String c (Replace1 s' old new)
      end
  end.

(** [fmt.Sprintf("%d", n)] for a non-negative [n]. *)
Definition itoa (n : nat) : string :=
  NilEmpty.string_of_uint (Nat.to_uint n).

(** [fmt.Sprintf("$%d", n)]. *)
Definition Sprintf_dollar (n : nat) : string := "$" +:+ itoa n.

(** [strings.SplitN(s, " ", 2)]: at most two chunks, cut at the first
    space; a string without a space is its own single chunk. *)
Fixpoint cut_space (s : string) : option (string * string) :=
  match s with
  | EmptyString => None
  | String c s' =>
      if Ascii.eqb c " "%char then Some (EmptyString, s')
      else match cut_space s' with
           | Some (a, b) => Some (String c a, b)
           | None => None
           end
  end.

Definition SplitN2 (s : string) : list string :=
  match cut_space s with
  | Some (a, b) => [a; b]
  | None => [s]
  end.

(** [strings.ToLower] on the ASCII range; bytes outside it are kept.
    The development is parametric in the lower-casing function, this
    instance is the one used on concrete ASCII inputs. *)
Definition lower_ascii (c : ascii) : ascii :=
  let n := nat_of_ascii c in
  if (65 <=? n) && (n <=? 90) then ascii_of_nat (n + 32) else c.

Fixpoint ToLowerASCII (s : string) : string :=
  match s with
  | EmptyString => EmptyString
  | String c s' => String (lower_ascii c) (ToLowerASCII s')
  end.

End GoStrings.
Import GoStrings.

(** ** Placeholder renumbering *)

(** The loop shared by the three primitives:
<<
    l := len(args)
    for i := 0; i < l; i++ {
        query = strings.Replace(query, `?`, fmt.Sprintf(`$%d`, i+1), 1)
    }
>>
    [renumber_loop k i query] runs the [k] remaining iterations from
    index [i]. *)
Fixpoint renumber_loop (k i : nat) (query : string) : string :=
  match k with
  | O => query
  | S k' => renumber_loop k' (i + 1) (Replace1 query "?" (Sprintf_dollar (i + 1)))
  end.

Definition renumber (query : string) (l : nat) : string :=
  renumber_loop l 0 query.

(** ** Data model *)

(** Error values. The first four are the sentinel values of package
    [db] that the file returns; [ErrDriver] stands for any error value
    handed back by database/sql or the ql driver. *)
Inductive error : Type :=
| ErrNotConnected
| ErrMissingDatabaseName
| ErrMissingCollectionName
| ErrCollectionDoesNotExists
| ErrDriver (msg : string).

(** Bound argument values ([interface{}]) and the cells of a result row. *)
Inductive value : Type :=
| VNil
| VInt (z : Z)
| VStr (s : string).

(** [reflect.Kind]. *)
Module reflect.
Inductive Kind : Type :=
| Invalid | Bool
| Int | Int8 | Int16 | Int32 | Int64
| Uint | Uint8 | Uint16 | Uint32 | Uint64 | Uintptr
| Float32 | Float64 | Complex64 | Complex128
| Array | Chan | Func | Interface | Map | Ptr | Slice
| String | Struct | UnsafePointer.
End reflect.

(** [timeType = reflect.TypeOf(time.Time{}).Kind()]: [time.Time] is a
    struct type. *)
Definition timeType : reflect.Kind := reflect.Struct.

(** The part of [sqlgen.Statement] that the file fills in; every other
    field keeps its zero value. *)
Module sqlgen.
Inductive Type_ : Type :=
| SqlTruncate | SqlDropTable | SqlDropDatabase | SqlSelectCount
| SqlInsert | SqlSelect | SqlUpdate | SqlDelete.

Inductive Value : Type :=
| Raw (s : string).

Record ColumnValue : Type := {
  Column : string;
  Operator : string;
  Val : Value
}.

Record Statement : Type := {
  Type' : Type_;
  Table : string;
  Database : string;
  Columns : list string;
  Where : list ColumnValue
}.
End sqlgen.

Definition sqlPlaceholder : sqlgen.Value := sqlgen.Raw "?".

(** Handles of driver objects ([*sql.DB], [*sql.Tx], [*sql.Rows]) and
    addresses of [Source] objects. *)
Definition handle := nat.
Definition loc := nat.

(** [db.Settings]: the adapter reads [Database] only. *)
Record Settings : Type := {
  Database : string;
  OtherSettings : list (string * string)
}.

Record Source : Type := {
  config : Settings;
  session : option handle;
  collections : option (gmap string loc);
  tx : option handle
}.

(** [&Source{}]. *)
Definition zeroSource : Source :=
  {| config := {| Database := ""; OtherSettings := [] |};
     session := None; collections := None; tx := None |}.

Record columnSchema_t : Type := {
  ColumnName : string;
  DataType : string
}.

(** [sql.Result], a [*sql.Rows] cursor with the rows it will deliver,
    and a [*sql.Row], whose error is deferred until it is scanned. *)
Record Result : Type := {
  LastInsertId : Z;
  RowsAffected : Z
}.

Record Rows : Type := {
  rows_id : handle;
  rows_data : list (list value)
}.

Record Row : Type := {
  row_err : option string;
  row_data : list value
}.

(** [Tx{clone}] and the [Table] built by [Collection]. *)
Record Tx : Type := { Tx_Source : loc }.

Record Table : Type := {
  source : loc;
  names : list string;
  PrimaryKey : string;
  ColumnTypes : option (gmap string reflect.Kind)
}.

(** ** The world: objects, driver handles and the I/O done so far *)

Inductive event : Type :=
| EvDebug (query : string) (args : list value)
| EvOpen (dsn : string)
| EvBegin (db : handle)
| EvExec (t : handle) (query : string) (args : list value)
| EvQuery (t : handle) (query : string) (args : list value)
| EvQueryRow (t : handle) (query : string) (args : list value)
| EvCommit (t : handle)
| EvNext (rows : handle)
| EvRowsClose (rows : handle).

Record World : Type := {
  heap : list Source;
  trace : list event;
  next : handle
}.

(** The collaborators of the file. The driver's answers may depend on
    everything requested before. *)
Class Collaborators : Type := {
  (** [stmt.Compile(template)] *)
  Compile : sqlgen.Statement -> string;
  (** [strings.ToLower] *)
  ToLower : string -> string;
  (** [col.FetchRows(&dst, rows)]: the new contents of [dst] and the error *)
  FetchRows : list columnSchema_t -> Rows -> list columnSchema_t * option error;
  (** [os.Getenv(db.EnvEnableDebug)] *)
  Getenv_debug : list event -> string;
  (** [sql.Open], [Begin] of a [sql.DB], and the methods of a [sql.Tx] *)
  sql_Open : list event -> string -> option string;
  db_Begin : list event -> handle -> option string;
  tx_Exec : list event -> handle -> string -> list value -> Result + string;
  tx_Query : list event -> handle -> string -> list value -> list (list value) + string;
  tx_QueryRow : list event -> handle -> string -> list value -> Row;
  tx_Commit : list event -> handle -> option string;
  (** [rows.Scan(&dst)] of the current row into one string destination:
      the scanned string, or the error, in which case [dst] keeps the
      value it had *)
  rows_Scan : list value -> string + string
}.

(** ** Stateful computations *)

Inductive outcome (A : Type) : Type :=
| Ret (a : A) (w : World)
| Panic.
Arguments Ret {A} a w.
Arguments Panic {A}.

Definition M (A : Type) : Type := World -> outcome A.

#[global] Instance M_ret : MRet M := fun A a w => Ret a w.

#[global] Instance M_bind : MBind M := fun A B k m w =>
  match m w with
  | Ret a w' => k a w'
  | Panic => Panic
  end.

Definition panic {A : Type} : M A := fun _ => Panic.

Definition when_ (b : bool) (m : M unit) : M unit :=
  if b then m else mret tt.

Definition history : M (list event) := fun w => Ret (trace w) w.

Definition emit (ev : event) : M unit :=
  fun w => Ret tt {| heap := heap w; trace := trace w ++ [ev]; next := next w |}.

Definition fresh : M handle :=
  fun w => Ret (next w) {| heap := heap w; trace := trace w; next := S (next w) |}.

(** Reading and writing through a [*Source]; a dangling pointer panics. *)
Definition deref (l : loc) : M Source :=
  fun w => match heap w !! l with
           | Some s => Ret s w
           | None => Panic
           end.

Definition store (l : loc) (s : Source) : M unit :=
  fun w => match heap w !! l with
           | Some _ => Ret tt {| heap := <[l := s]> (heap w); trace := trace w; next := next w |}
           | None => Panic
           end.

Definition alloc (s : Source) : M loc :=
  fun w => Ret (length (heap w))
             {| heap := heap w ++ [s]; trace := trace w; next := next w |}.

(** ** The adapter *)

Section Adapter.
Context `{C : Collaborators}.

(** *** Calls into database/sql *)

Definition sqlOpen (dsn : string) : M (handle + error) :=
  h ← history;
  emit (EvOpen dsn);;
  match sql_Open h dsn with
  | None => db ← fresh; mret (inl db)
  | Some msg => mret (inr (ErrDriver msg))
  end.

Definition dbBegin (db : handle) : M (handle + error) :=
  h ← history;
  emit (EvBegin db);;
  match db_Begin h db with
  | None => t ← fresh; mret (inl t)
  | Some msg => mret (inr (ErrDriver msg))
  end.

Definition txExec (t : handle) (query : string) (args : list value)
  : M (Result + error) :=
  h ← history;
  emit (EvExec t query args);;
  match tx_Exec h t query args with
  | inl res => mret (inl res)
  | inr msg => mret (inr (ErrDriver msg))
  end.

Definition txQuery (t : handle) (query : string) (args : list value)
  : M (Rows + error) :=
  h ← history;
  emit (EvQuery t query args);;
  match tx_Query h t query args with
  | inl data => r ← fresh; mret (inl {| rows_id := r; rows_data := data |})
  | inr msg => mret (inr (ErrDriver msg))
  end.

Definition txQueryRow (t : handle) (query : string) (args : list value) : M Row :=
  h ← history;
  emit (EvQueryRow t query args);;
  mret (tx_QueryRow h t query args).

Definition txCommit (t : handle) : M (option error) :=
  h ← history;
  emit (EvCommit t);;
  match tx_Commit h t with
  | None => mret None
  | Some msg => mret (Some (ErrDriver msg))
  end.

(** A Go [(value, error)] pair from a driver answer. *)
Definition go_pair {A : Type} (r : A + error) : option A * option error :=
  match r with
  | inl a => (Some a, None)
  | inr e => (None, Some e)
  end.

(** *** debugEnabled and the common prologue *)

Definition debugEnabled : M bool :=
  h ← history;
  if String.eqb (Getenv_debug h) "" then mret false else mret true.

(** Lines 113-122 (and their copies in [doQuery] and [doQueryRow]):
    compile, renumber the placeholders, report to the debug hook. *)
Definition compile_query (stmt : sqlgen.Statement) (args : list value) : M string :=
  let query := Compile stmt in
  let l := length args in
  let query := renumber query l in
  dbg ← debugEnabled;
  when_ dbg (emit (EvDebug query args));;
  mret query.

(** *** doExec, doQuery, doQueryRow *)

Definition doExec (self : loc) (stmt : sqlgen.Statement) (args : list value)
  : M (option Result * option error) :=
  s ← deref self;
  match session s with
  | None => mret (None, Some ErrNotConnected)
  | Some db =>
      query ← compile_query stmt args;
      match tx s with
      | None =>
          r ← dbBegin db;
          match r with
          | inr err => mret (None, Some err)
          | inl t =>
              r ← txExec t query args;
              match r with
              | inr err => mret (None, Some err)
              | inl res =>
                  err ← txCommit t;
                  match err with
                  | Some err => mret (None, Some err)
                  | None => mret (Some res, None)
                  end
              end
          end
      | Some t =>
          r ← txExec t query args;
          mret (go_pair r)
      end
  end.

Definition doQuery (self : loc) (stmt : sqlgen.Statement) (args : list value)
  : M (option Rows * option error) :=
  s ← deref self;
  match session s with
  | None => mret (None, Some ErrNotConnected)
  | Some db =>
      query ← compile_query stmt args;
      match tx s with
      | None =>
          r ← dbBegin db;
          match r with
          | inr err => mret (None, Some err)
          | inl t =>
              r ← txQuery t query args;
              match r with
              | inr err => mret (None, Some err)
              | inl rows =>
                  err ← txCommit t;
                  match err with
                  | Some err => mret (None, Some err)
                  | None => mret (Some rows, None)
                  end
              end
          end
      | Some t =>
          r ← txQuery t query args;
          mret (go_pair r)
      end
  end.

(** In [doQueryRow] the test after [tx.QueryRow] reads [err], which
    [QueryRow] does not assign: it still holds the [nil] left by the
    successful [Begin]. *)
Definition doQueryRow (self : loc) (stmt : sqlgen.Statement) (args : list value)
  : M (option Row * option error) :=
  s ← deref self;
  match session s with
  | None => mret (None, Some ErrNotConnected)
  | Some db =>
      query ← compile_query stmt args;
      match tx s with
      | None =>
          r ← dbBegin db;
          match r with
          | inr err => mret (None, Some err)
          | inl t =>
              let err : option error := None in
              row ← txQueryRow t query args;
              match err with
              | Some err => mret (None, Some err)
              | None =>
                  err ← txCommit t;
                  match err with
                  | Some err => mret (None, Some err)
                  | None => mret (Some row, None)
                  end
              end
          end
      | Some t =>
          row ← txQueryRow t query args;
          mret (Some row, None)
      end
  end.


(** *** Cursors *)

(** [rows.Next()] on a cursor with [pending] rows left: the current
    row and the rows after it, or [None] when the cursor is exhausted. *)
Definition rowsNext (rows : Rows) (pending : list (list value))
  : M (option (list value * list (list value))) :=
  emit (EvNext (rows_id rows));;
  match pending with
  | [] => mret None
  | row :: rest => mret (Some (row, rest))
  end.

Definition rowsClose (rows : Rows) : M unit :=
  emit (EvRowsClose (rows_id rows)).

(** Deferred [rows.Close()] calls run last-in first-out when the
    function returns; [deferred] holds the most recent one first. *)
Fixpoint run_deferred (deferred : list Rows) : M unit :=
  match deferred with
  | [] => mret tt
  | rows :: older => rowsClose rows;; run_deferred older
  end.

(** *** Name, Open, Setup, Use *)

Definition Name (self : loc) : M string :=
  s ← deref self;
  mret (Database (config s)).

Definition set_session (s : Source) (db : option handle) : Source :=
  {| config := config s; session := db; collections := collections s; tx := tx s |}.

Definition set_tx (s : Source) (t : option handle) : Source :=
  {| config := config s; session := session s; collections := collections s; tx := t |}.

Definition Open (self : loc) : M (option error) :=
  s ← deref self;
  if String.eqb (Database (config s)) "" then mret (Some ErrMissingDatabaseName)
  else
    r ← sqlOpen (Database (config s));
    match r with
    | inl db => store self (set_session s (Some db));; mret None
    | inr err => store self (set_session s None);; mret (Some err)
    end.

Definition Setup (self : loc) (config0 : Settings) : M (option error) :=
  s ← deref self;
  store self {| config := config0; session := session s;
                collections := Some ∅; tx := tx s |};;
  Open self.

Definition Use (self : loc) (database : string) : M (option error) :=
  s ← deref self;
  store self {| config := {| Database := database;
                             OtherSettings := OtherSettings (config s) |};
                session := session s; collections := collections s; tx := tx s |};;
  Open self.

(** *** clone and Transaction *)

Definition clone (self : loc) : M (option loc * option error) :=
  s ← deref self;
  src ← alloc zeroSource;
  Setup src (config s);;
  err ← Open src;
  match err with
  | Some err => mret (None, Some err)
  | None => mret (Some src, None)
  end.

Definition Clone (self : loc) : M (option loc * option error) := clone self.

Definition Transaction (self : loc) : M (option Tx * option error) :=
  '(clone0, err) ← clone self;
  match err with
  | Some err => mret (None, Some err)
  | None =>
      match clone0 with
      | None => panic
      | Some clone0 =>
          c ← deref clone0;
          match session c with
          | None => panic
          | Some db =>
              r ← dbBegin db;
              match r with
              | inr err => mret (None, Some err)
              | inl sqlTx =>
                  let tx0 := {| Tx_Source := clone0 |} in
                  c ← deref clone0;
                  store clone0 (set_tx c (Some sqlTx));;
                  mret (Some tx0, None)
              end
          end
      end
  end.

(** *** Drop, Collections, tableExists *)

Definition dropStmt (database : string) : sqlgen.Statement :=
  {| sqlgen.Type' := sqlgen.SqlDropDatabase; sqlgen.Table := "";
     sqlgen.Database := database; sqlgen.Columns := []; sqlgen.Where := [] |}.

Definition Drop (self : loc) : M (option error) :=
  s ← deref self;
  '(_, err) ← doQuery self (dropStmt (Database (config s))) [];
  mret err.

Definition tablesStmt : sqlgen.Statement :=
  {| sqlgen.Type' := sqlgen.SqlSelect; sqlgen.Table := "__Table";
     sqlgen.Database := ""; sqlgen.Columns := ["Name"]; sqlgen.Where := [] |}.

(** The loop of [Collections]: [collection] is the variable that
    [rows.Scan] writes, [collections] the slice built so far. The
    error of [Scan] is not looked at. *)
Fixpoint Collections_loop (rows : Rows) (pending : list (list value))
    (collection : string) (collections0 : list string) : M (list string) :=
  match pending with
  | [] => rowsNext rows [];; mret collections0
  | row :: rest =>
      rowsNext rows (row :: rest);;
      let collection :=
        match rows_Scan row with
        | inl v => v
        | inr _ => collection
        end in
      Collections_loop rows rest collection (collections0 ++ [collection])
  end.

Definition Collections (self : loc) : M (list string * option error) :=
  '(rows, err) ← doQuery self tablesStmt [];
  match err with
  | Some err => mret ([], Some err)
  | None =>
      match rows with
      | None => panic
      | Some rows =>
          collections0 ← Collections_loop rows (rows_data rows) "" [];
          rowsClose rows;;
          mret (collections0, None)
      end
  end.

Definition existsStmt : sqlgen.Statement :=
  {| sqlgen.Type' := sqlgen.SqlSelect; sqlgen.Table := "__Table";
     sqlgen.Database := ""; sqlgen.Columns := ["Name"];
     sqlgen.Where := [ {| sqlgen.Column := "Name"; sqlgen.Operator := "==";
                          sqlgen.Val := sqlPlaceholder |} ] |}.

Fixpoint tableExists_loop (self : loc) (names0 : list string) (deferred : list Rows)
  : M (option error) :=
  match names0 with
  | [] => run_deferred deferred;; mret None
  | name :: rest =>
      '(rows, err) ← doQuery self existsStmt [VStr name];
      match err with
      | Some _ => run_deferred deferred;; mret (Some ErrCollectionDoesNotExists)
      | None =>
          match rows with
          | None => panic
          | Some rows =>
              let deferred := rows :: deferred in
              more ← rowsNext rows (rows_data rows);
              match more with
              | None => run_deferred deferred;; mret (Some ErrCollectionDoesNotExists)
              | Some _ => tableExists_loop self rest deferred
              end
          end
      end
  end.

Definition tableExists (self : loc) (names0 : list string) : M (option error) :=
  tableExists_loop self names0 [].

(** *** Collection *)

Definition columnsStmt : sqlgen.Statement :=
  {| sqlgen.Type' := sqlgen.SqlSelect; sqlgen.Table := "__Column";
     sqlgen.Database := ""; sqlgen.Columns := ["Name"; "Type"];
     sqlgen.Where := [ {| sqlgen.Column := "TableName"; sqlgen.Operator := "==";
                          sqlgen.Val := sqlPlaceholder |} ] |}.

(** The [switch dtype] of lines 439-468. *)
Definition guess_kind (dtype : string) : reflect.Kind :=
  if String.eqb dtype "int" then reflect.Int
  else if String.eqb dtype "int8" then reflect.Int8
  else if String.eqb dtype "int16" then reflect.Int16
  else if String.eqb dtype "int32" || String.eqb dtype "rune" then reflect.Int32
  else if String.eqb dtype "int64" then reflect.Int64
  else if String.eqb dtype "uint" then reflect.Uint
  else if String.eqb dtype "uint8" then reflect.Uint8
  else if String.eqb dtype "uint16" then reflect.Uint16
  else if String.eqb dtype "uint32" then reflect.Uint32
  else if String.eqb dtype "uint64" then reflect.Uint64
  else if String.eqb dtype "float64" then reflect.Float64
  else if String.eqb dtype "float32" then reflect.Float32
  else if String.eqb dtype "time" then timeType
  else reflect.String.

(** One iteration of the loop over [columns_t] (lines 429-471). *)
Definition set_column_type (types : gmap string reflect.Kind) (column : columnSchema_t)
  : gmap string reflect.Kind :=
  let column := {| ColumnName := ToLower (ColumnName column);
                   DataType := ToLower (DataType column) |} in
  let dtype := DataType column in
  let ctype := guess_kind dtype in
  <[ColumnName column := ctype]> types.

Definition column_types (columns_t : list columnSchema_t) : gmap string reflect.Kind :=
  fold_left set_column_type columns_t ∅.

(** The loop over [names]: [columns_t] and [col.ColumnTypes] are the
    two variables it updates. *)
Fixpoint Collection_loop (self : loc) (names0 : list string)
    (columns_t : list columnSchema_t) (types : option (gmap string reflect.Kind))
  : M (option (gmap string reflect.Kind) * option error) :=
  match names0 with
  | [] => mret (types, None)
  | name :: rest =>
      let chunks := SplitN2 name in
      match chunks with
      | [] => Collection_loop self rest columns_t types
      | name :: _ =>
          err ← tableExists self [name];
          match err with
          | Some err => mret (None, Some err)
          | None =>
              '(rows, err) ← doQuery self columnsStmt [VStr name];
              match err with
              | Some err => mret (None, Some err)
              | None =>
                  match rows with
                  | None => panic
                  | Some rows =>
                      let '(columns_t, err) := FetchRows columns_t rows in
                      match err with
                      | Some err => mret (None, Some err)
                      | None =>
                          Collection_loop self rest columns_t
                            (Some (column_types columns_t))
                      end
                  end
              end
          end
      end
  end.

Definition Collection (self : loc) (names0 : list string)
  : M (option Table * option error) :=
  if (length names0 =? 0) then mret (None, Some ErrMissingCollectionName)
  else
    '(types, err) ← Collection_loop self names0 [] None;
    match err with
    | Some err => mret (None, Some err)
    | None =>
        mret (Some {| source := self; names := names0; PrimaryKey := "id";
                      ColumnTypes := types |}, None)
    end.

End Adapter.

(** ** A concrete engine

    An instance of the collaborators: a catalog of tables served through
    the two catalog queries, with switches to make each driver call
    fail. It is the environment the examples run in. *)

Module Sample.

Definition join (sep : string) (l : list string) : string :=
  match l with
  | [] => ""
  | x :: rest => fold_left (fun acc y => acc +:+ sep +:+ y) rest x
  end.

Definition render_value (v : sqlgen.Value) : string :=
  match v with
  | sqlgen.Raw s => s
  end.

Definition render_where (cv : sqlgen.ColumnValue) : string :=
  sqlgen.Column cv +:+ " " +:+ sqlgen.Operator cv +:+ " " +:+ render_value (sqlgen.Val cv).

(** A plain rendering of the statements the file builds; the layouts
    of the package's template live outside this file. *)
Definition compile (stmt : sqlgen.Statement) : string :=
  match sqlgen.Type' stmt with
  | sqlgen.SqlSelect =>
      "SELECT " +:+ join ", " (sqlgen.Columns stmt) +:+ " FROM " +:+ sqlgen.Table stmt +:+
      match sqlgen.Where stmt with
      | [] => ""
      | conds => " WHERE " +:+ join " AND " (map render_where conds)
      end
  | sqlgen.SqlDropDatabase => "DROP DATABASE " +:+ sqlgen.Database stmt
  | sqlgen.SqlInsert => "INSERT INTO " +:+ sqlgen.Table stmt +:+ " (" +:+
      join ", " (sqlgen.Columns stmt) +:+ ") VALUES (" +:+
      join ", " (map (fun _ => "?") (sqlgen.Columns stmt)) +:+ ")"
  | _ => ""
  end.

(** Tables with their columns, as (name, type) pairs. *)
Definition catalog := list (string * list (string * string)).

Record faults : Type := {
  fail_open : option string;
  fail_begin : option string;
  fail_exec : option string;
  fail_tables_query : option string;
  fail_columns_query : option string;
  fail_commit : option string;
  debug_env : string
}.

Definition healthy : faults :=
  {| fail_open := None; fail_begin := None; fail_exec := None;
     fail_tables_query := None; fail_columns_query := None;
     fail_commit := None; debug_env := "" |}.

Definition table_rows (cat : catalog) (name : string) : list (list value) :=
  map (fun t => [VStr (fst t)]) (filter (fun t => fst t = name) cat).

Definition column_rows (cat : catalog) (name : string) : list (list value) :=
  flat_map (fun t => map (fun c => [VStr (fst c); VStr (snd c)]) (snd t))
           (filter (fun t => fst t = name) cat).

Definition query (cat : catalog) (f : faults) (q : string) (args : list value)
  : list (list value) + string :=
  if String.eqb q "SELECT Name FROM __Table" then
    match fail_tables_query f with
    | Some msg => inr msg
    | None => inl (map (fun t => [VStr (fst t)]) cat)
    end
  else if String.eqb q "SELECT Name FROM __Table WHERE Name == $1" then
    match fail_tables_query f, args with
    | Some msg, _ => inr msg
    | None, [VStr name] => inl (table_rows cat name)
    | None, _ => inr "wrong arguments"
    end
  else if String.eqb q "SELECT Name, Type FROM __Column WHERE TableName == $1" then
    match fail_columns_query f, args with
    | Some msg, _ => inr msg
    | None, [VStr name] => inl (column_rows cat name)
    | None, _ => inr "wrong arguments"
    end
  else inr "syntax error".

Definition decode_column (row : list value) : option columnSchema_t :=
  match row with
  | [VStr name; VStr type] => Some {| ColumnName := name; DataType := type |}
  | _ => None
  end.

(** Decoded rows are appended to the destination slice. *)
Fixpoint fetch_rows (dst : list columnSchema_t) (pending : list (list value))
  : list columnSchema_t * option error :=
  match pending with
  | [] => (dst, None)
  | row :: rest =>
      match decode_column row with
      | Some c => fetch_rows (dst ++ [c]) rest
      | None => (dst, Some (ErrDriver "cannot decode row"))
      end
  end.

Definition scan (row : list value) : string + string :=
  match row with
  | [VStr s] => inl s
  | _ => inr "unsupported Scan"
  end.

Definition engine (cat : catalog) (f : faults) : Collaborators :=
  {| Compile := compile;
     ToLower := ToLowerASCII;
     FetchRows := fun dst rows => fetch_rows dst (rows_data rows);
     Getenv_debug := fun _ => debug_env f;
     sql_Open := fun _ _ => fail_open f;
     db_Begin := fun _ _ => fail_begin f;
     tx_Exec := fun _ _ _ _ =>
       match fail_exec f with
       | Some msg => inr msg
       | None => inl {| LastInsertId := 0; RowsAffected := 1 |}
       end;
     tx_Query := fun _ _ q args => query cat f q args;
     tx_QueryRow := fun _ _ q args =>
       match query cat f q args with
       | inl (row :: _) => {| row_err := None; row_data := row |}
       | inl [] => {| row_err := Some "no rows in result set"; row_data := [] |}
       | inr msg => {| row_err := Some msg; row_data := [] |}
       end;
     tx_Commit := fun _ _ => fail_commit f;
     rows_Scan := scan |}.

(** An engine whose every query delivers the given rows. *)
Definition scripted (data : list (list value)) : Collaborators :=
  {| Compile := compile;
     ToLower := ToLowerASCII;
     FetchRows := fun dst rows => fetch_rows dst (rows_data rows);
     Getenv_debug := fun _ => "";
     sql_Open := fun _ _ => None;
     db_Begin := fun _ _ => None;
     tx_Exec := fun _ _ _ _ => inl {| LastInsertId := 0; RowsAffected := 0 |};
     tx_Query := fun _ _ _ _ => inl data;
     tx_QueryRow := fun _ _ _ _ => {| row_err := None; row_data := [] |};
     tx_Commit := fun _ _ => None;
     rows_Scan := scan |}.

Definition settings : Settings :=
  {| Database := "test.db"; OtherSettings := [] |}.

Definition session0 : Source :=
  {| config := settings; session := Some 0; collections := Some ∅; tx := None |}.

(** One open session at address 0 without a transaction. *)
Definition connected : World :=
  {| heap := [session0]; trace := []; next := 1 |}.

(** One open session at address 0 inside the explicit transaction 1. *)
Definition in_transaction : World :=
  {| heap := [ {| config := settings; session := Some 0;
                  collections := Some ∅; tx := Some 1 |} ];
     trace := []; next := 2 |}.

(** The registered [&Source{}]: never opened. *)
Definition unconnected : World :=
  {| heap := [ zeroSource ]; trace := []; next := 0 |}.

(** The table of the scenario: [t(id int, name string)]. *)
Definition cat_t : catalog := [ ("t", [("id", "int"); ("name", "string")]) ].

(** The handle of the scenario. *)
Definition handle_t : Table :=
  {| source := 0; names := ["t"]; PrimaryKey := "id";
     ColumnTypes := Some (<["name" := reflect.String]> (<["id" := reflect.Int]> ∅)) |}.

(** A driver that has lost its connection: [Begin] fails. *)
Definition broken : faults :=
  {| fail_open := None; fail_begin := Some "connection lost"; fail_exec := None;
     fail_tables_query := None; fail_columns_query := None;
     fail_commit := None; debug_env := "" |}.

(** A driver on which the column query fails. *)
Definition no_columns : faults :=
  {| fail_open := None; fail_begin := None; fail_exec := None;
     fail_tables_query := None; fail_columns_query := Some "table __Column is locked";
     fail_commit := None; debug_env := "" |}.

(** A catalog that reports its names in upper case. *)
Definition cat_upper : catalog := [ ("t", [("ID", "INT"); ("Name", "String")]) ].

(** The healthy engine of the scenario. *)
Definition healthy_t : Collaborators := engine cat_t healthy.

Definition insertStmt : sqlgen.Statement :=
  {| sqlgen.Type' := sqlgen.SqlInsert; sqlgen.Table := "t"; sqlgen.Database := "";
     sqlgen.Columns := ["id"; "name"]; sqlgen.Where := [] |}.

End Sample.

(** Further environments for the examples. *)
Module Sample2.

(** A driver on which [sql.Open] fails. *)
Definition cannot_open : Sample.faults :=
  {| Sample.fail_open := Some "cannot open"; Sample.fail_begin := None;
     Sample.fail_exec := None; Sample.fail_tables_query := None;
     Sample.fail_columns_query := None; Sample.fail_commit := None;
     Sample.debug_env := "" |}.

(** A session that carries its settings and has no connection. *)
Definition idle_session : Source :=
  {| config := Sample.settings; session := None; collections := None; tx := None |}.

Definition idle : World :=
  {| heap := [idle_session]; trace := []; next := 0 |}.

(** The session of [Sample.in_transaction]. *)
Definition session_in_tx : Source :=
  {| config := Sample.settings; session := Some 0; collections := Some ∅; tx := Some 1 |}.

(** Two catalog rows whose names differ in case only. *)
Definition clashing_rows : list columnSchema_t :=
  [ {| ColumnName := "Name"; DataType := "string" |};
    {| ColumnName := "NAME"; DataType := "int" |} ].

End Sample2.

(** ** Vocabulary of the properties *)

(** The world after the events [evs] and [k] new driver handles. *)
Definition after (w : World) (evs : list event) (k : nat) : World :=
  {| heap := heap w; trace := trace w ++ evs; next := k + next w |}.

(** What the debug hook receives for one call, given the requests
    made before it: nothing unless the environment variable is set. *)
Definition debug_report `{C : Collaborators} (h : list event)
    (query : string) (args : list value) : list event :=
  if String.eqb (Getenv_debug h) "" then [] else [EvDebug query args].

(** [with_placeholders [s0; s1; ...; sN]] is the text [s0 ? s1 ? ... ? sN]:
    a compiled statement cut at its neutral placeholders. *)
Fixpoint with_placeholders (segs : list string) : string :=
  match segs with
  | [] => ""
  | s :: rest =>
      match rest with
      | [] => s
      | _ :: _ => s +:+ "?" +:+ with_placeholders rest
      end
  end.

(** [with_params i [s0; s1; ...; sN]] is [s0 $i+1 s1 $i+2 ... $i+N sN]. *)
Fixpoint with_params (i : nat) (segs : list string) : string :=
  match segs with
  | [] => ""
  | s :: rest =>
      match rest with
      | [] => s
      | _ :: _ => s +:+ Sprintf_dollar (i + 1) +:+ with_params (i + 1) rest
      end
  end.

Fixpoint count_char (c : ascii) (s : string) : nat :=
  match s with
  | EmptyString => 0
  | String a s' => (if Ascii.eqb a c then 1 else 0) + count_char c s'
  end.

Definition is_digit (c : ascii) : bool :=
  let n := nat_of_ascii c in (48 <=? n) && (n <=? 57).

Fixpoint take_digits (s : string) : string :=
  match s with
  | EmptyString => EmptyString
  | String c s' => if is_digit c then String c (take_digits s') else EmptyString
  end.

(** The positional-parameter tokens of a text, left to right: for every
    [$], the digits that follow it. *)
Fixpoint param_tokens (s : string) : list string :=
  match s with
  | EmptyString => []
  | String c s' =>
      if Ascii.eqb c "$"%char then take_digits s' :: param_tokens s'
      else param_tokens s'
  end.

Definition starts_with_digit (s : string) : bool :=
  match s with
  | EmptyString => false
  | String c _ => is_digit c
  end.

(** A segment that carries no parameter syntax of its own. *)
Definition plain (s : string) : Prop :=
  count_char "$"%char s = 0 /\ starts_with_digit s = false.

(** The table of the type switch as data, and the lookup that the
    specification describes: a listed name gives its kind, anything
    else the string kind. *)
Definition type_table : list (string * reflect.Kind) :=
  [ ("int", reflect.Int); ("int8", reflect.Int8); ("int16", reflect.Int16);
    ("int32", reflect.Int32); ("rune", reflect.Int32); ("int64", reflect.Int64);
    ("uint", reflect.Uint); ("uint8", reflect.Uint8); ("uint16", reflect.Uint16);
    ("uint32", reflect.Uint32); ("uint64", reflect.Uint64);
    ("float64", reflect.Float64); ("float32", reflect.Float32);
    ("time", timeType) ].

Fixpoint assoc (k : string) (tbl : list (string * reflect.Kind)) : option reflect.Kind :=
  match tbl with
  | [] => None
  | (k', v) :: rest => if String.eqb k k' then Some v else assoc k rest
  end.

Definition table_kind (dtype : string) : reflect.Kind :=
  match assoc dtype type_table with
  | Some k => k
  | None => reflect.String
  end.

(** The text before the first space. *)
Fixpoint first_token (s : string) : string :=
  match s with
  | EmptyString => EmptyString
  | String c s' => if Ascii.eqb c " "%char then EmptyString else String c (first_token s')
  end.

(** An event that is not a query, or a query bound to one of [idents]. *)
Definition binds_only (idents : list string) (ev : event) : Prop :=
  match ev with
  | EvQuery _ _ args | EvExec _ _ args | EvQueryRow _ _ args =>
      exists ident, ident ∈ idents /\ args = [VStr ident]
  | _ => True
  end.

(** The slice that the loop of [Collections] is specified to build:
    entry [i] is the string scanned from row [i], or, when that scan
    fails, the previous entry (the empty string for the first row). *)
Definition scanned_entry `{C : Collaborators} (row : list value) (previous : string) : string :=
  match rows_Scan row with
  | inl v => v
  | inr _ => previous
  end.

Fixpoint scanned `{C : Collaborators} (previous : string) (pending : list (list value))
  : list string :=
  match pending with
  | [] => []
  | row :: rest =>
      let v := scanned_entry row previous in
      v :: scanned v rest
  end.

(** A catalog row as type resolution sees it: both strings lower-cased. *)
Definition lowered `{C : Collaborators} (c : columnSchema_t) : string * string :=
  (ToLower (ColumnName c), ToLower (DataType c)).

(** The session that [clone] builds for the settings [cfg], with its
    connection and transaction handles. *)
Definition cloned (cfg : Settings) (db tx0 : option handle) : Source :=
  {| config := cfg; session := db; collections := Some ∅; tx := tx0 |}.

(** Resolving one name, step by step: the existence check on the first
    token; then, and only when the table exists, the column query on
    the same token; then the decoding of its rows; then the type map.
    An error of any step ends the resolution with that error. *)
Definition resolve_one `{C : Collaborators} (self : loc) (name : string)
  : M (option Table * option error) :=
  fun w =>
    match tableExists self [first_token name] w with
    | Ret (Some err) w1 => Ret (None, Some err) w1
    | Ret None w1 =>
        match doQuery self columnsStmt [VStr (first_token name)] w1 with
        | Ret (_, Some err) w2 => Ret (None, Some err) w2
        | Ret (Some rows, None) w2 =>
            match FetchRows [] rows with
            | (_, Some err) => Ret (None, Some err) w2
            | (cols, None) =>
                Ret (Some {| source := self; names := [name]; PrimaryKey := "id";
                             ColumnTypes := Some (column_types cols) |}, None) w2
            end
        | Ret (None, None) _ => Panic
        | Panic => Panic
        end
    | Panic => Panic
    end.

(** [with_first_params n i [s0; s1; ...]] is the text cut at its
    placeholders with the first [n] of them numbered from [i + 1] and
    the others left as they are. *)
Fixpoint with_first_params (n i : nat) (segs : list string) {struct segs} : string :=
  match segs with
  | [] => ""
  | s :: rest =>
      match rest with
      | [] => s
      | _ :: _ =>
          match n with
          | O => s +:+ "?" +:+ with_placeholders rest
          | S n' => s +:+ Sprintf_dollar (i + 1) +:+ with_first_params n' (i + 1) rest
          end
      end
  end.

(** The cursors of a trace: those advanced by [Next], those closed, and
    the arguments of the queries sent, each in the order of the trace. *)
Definition reads (evs : list event) : list handle :=
  flat_map (fun ev => match ev with EvNext r => [r] | _ => [] end) evs.

Definition closes (evs : list event) : list handle :=
  flat_map (fun ev => match ev with EvRowsClose r => [r] | _ => [] end) evs.

Definition query_args (evs : list event) : list (list value) :=
  flat_map (fun ev => match ev with EvQuery _ _ args => [args] | _ => [] end) evs.

(** The key and the kind that type resolution gives a catalog row. *)
Definition column_key `{C : Collaborators} (c : columnSchema_t) : string :=
  ToLower (ColumnName c).

Definition column_kind `{C : Collaborators} (c : columnSchema_t) : reflect.Kind :=
  table_kind (ToLower (DataType c)).

(** The cursor events of a trace, in its order: every [Next] and every
    [Close] of a cursor. *)
Definition cursor_events (evs : list event) : list event :=
  flat_map (fun ev => match ev with
                      | EvNext _ | EvRowsClose _ => [ev]
                      | _ => []
                      end) evs.

(** The shape of what a primitive returns on a session whose connection
    handle is [db]: a value with a nil error, or no value with an error,
    which is [ErrNotConnected] exactly when there is no connection and
    an error of the driver otherwise. *)
Definition well_shaped {A : Type} (db : option handle) (r : option A * option error) : Prop :=
  match r with
  | (Some _, None) => db <> None
  | (None, Some ErrNotConnected) => db = None
  | (None, Some (ErrDriver _)) => db <> None
  | _ => False
  end.

(** * Properties *)

(** ** Placeholder renumbering *)

Section Renumbering.

Lemma count_char_app c s t :
  count_char c (s +:+ t) = count_char c s + count_char c t.
Proof.
  induction s as [|a s IH]; simpl; [reflexivity|].
  rewrite IH. lia.
Qed.

Lemma append_assoc (s t u : string) : (s +:+ t) +:+ u = s +:+ (t +:+ u).
Proof. induction s as [|a s IH]; simpl; [reflexivity | by rewrite IH]. Qed.

Lemma count_char_cons_0 c a s :
  count_char c (String a s) = 0 <-> a <> c /\ count_char c s = 0.
Proof.
  simpl. destruct (Ascii.eqb_spec a c) as [->|Hne]; simpl; split.
  - discriminate.
  - intros [Hne _]. by destruct Hne.
  - auto.
  - by intros [_ ?].
Qed.

(** The first [?] of a text whose head carries none is replaced. *)
Lemma Replace1_first pre rest new :
  count_char "?" pre = 0 ->
  Replace1 (pre +:+ "?" +:+ rest) "?" new = pre +:+ new +:+ rest.
Proof.
  induction pre as [|a pre IH]; intros Hpre.
  - reflexivity.
  - apply count_char_cons_0 in Hpre as [Hne Hpre]. simpl.
    destruct (Ascii.eqb_spec "?" a) as [Heq|_]; [by destruct Hne|].
    f_equal. exact (IH Hpre).
Qed.

Lemma append_nil_r (s : string) : s +:+ "" = s.
Proof. induction s as [|a s IH]; simpl; [reflexivity | by rewrite IH]. Qed.

(** [Sprintf] prints digits only. *)
Lemma uint_digits_count c d :
  is_digit c = false -> count_char c (NilEmpty.string_of_uint d) = 0.
Proof.
  intros Hc. induction d as [|d IH|d IH|d IH|d IH|d IH|d IH|d IH|d IH|d IH|d IH];
    [reflexivity|..];
    change (NilEmpty.string_of_uint _) with (String "0" (NilEmpty.string_of_uint d))
    || change (NilEmpty.string_of_uint _) with (String "1" (NilEmpty.string_of_uint d))
    || change (NilEmpty.string_of_uint _) with (String "2" (NilEmpty.string_of_uint d))
    || change (NilEmpty.string_of_uint _) with (String "3" (NilEmpty.string_of_uint d))
    || change (NilEmpty.string_of_uint _) with (String "4" (NilEmpty.string_of_uint d))
    || change (NilEmpty.string_of_uint _) with (String "5" (NilEmpty.string_of_uint d))
    || change (NilEmpty.string_of_uint _) with (String "6" (NilEmpty.string_of_uint d))
    || change (NilEmpty.string_of_uint _) with (String "7" (NilEmpty.string_of_uint d))
    || change (NilEmpty.string_of_uint _) with (String "8" (NilEmpty.string_of_uint d))
    || change (NilEmpty.string_of_uint _) with (String "9" (NilEmpty.string_of_uint d));
    apply count_char_cons_0; (split; [intros <-; discriminate Hc | exact IH]).
Qed.

Lemma uint_digits_take d s :
  take_digits (NilEmpty.string_of_uint d +:+ s)
  = NilEmpty.string_of_uint d +:+ take_digits s.
Proof.
  induction d as [|d IH|d IH|d IH|d IH|d IH|d IH|d IH|d IH|d IH|d IH];
    [reflexivity|..]; simpl; by rewrite IH.
Qed.

Lemma itoa_no_qmark n : count_char "?" (itoa n) = 0.
Proof. by apply uint_digits_count. Qed.

Lemma itoa_no_dollar n : count_char "$" (itoa n) = 0.
Proof. by apply uint_digits_count. Qed.

Lemma Sprintf_dollar_no_qmark n : count_char "?" (Sprintf_dollar n) = 0.
Proof. apply count_char_cons_0. split; [discriminate | apply itoa_no_qmark]. Qed.

Lemma with_placeholders_cons s s' rest :
  with_placeholders (s :: s' :: rest) = s +:+ "?" +:+ with_placeholders (s' :: rest).
Proof. reflexivity. Qed.

Lemma with_params_cons i s s' rest :
  with_params i (s :: s' :: rest)
  = s +:+ Sprintf_dollar (i + 1) +:+ with_params (i + 1) (s' :: rest).
Proof. reflexivity. Qed.

(** The invariant of the loop: the text already renumbered, [pre],
    carries no [?]; the rest is still cut at its placeholders. *)
Lemma renumber_loop_segments segs : forall k i pre,
  length segs = S k ->
  Forall (fun s => count_char "?" s = 0) segs ->
  count_char "?" pre = 0 ->
  renumber_loop k i (pre +:+ with_placeholders segs) = pre +:+ with_params i segs.
Proof.
  induction segs as [|s rest IH]; intros k i pre Hlen Hsegs Hpre; [discriminate|].
  destruct rest as [|s' rest].
  - injection Hlen as <-. reflexivity.
  - destruct k as [|k]; [discriminate|].
    apply Forall_cons in Hsegs as [Hs Hrest].
    rewrite with_placeholders_cons, with_params_cons.
    cbn [renumber_loop].
    rewrite <- (append_assoc pre s), Replace1_first
      by (rewrite count_char_app; lia).
    rewrite <- (append_assoc (pre +:+ s)).
    rewrite IH.
    + by rewrite !append_assoc.
    + simpl in Hlen. simpl. lia.
    + exact Hrest.
    + rewrite !count_char_app, Sprintf_dollar_no_qmark. lia.
Qed.

Lemma with_params_no_qmark segs : forall i,
  Forall (fun s => count_char "?" s = 0) segs ->
  count_char "?" (with_params i segs) = 0.
Proof.
  induction segs as [|s rest IH]; intros i Hsegs; [reflexivity|].
  apply Forall_cons in Hsegs as [Hs Hrest].
  destruct rest as [|s' rest]; [exact Hs|].
  rewrite with_params_cons, !count_char_app, Sprintf_dollar_no_qmark, IH by done.
  lia.
Qed.

Lemma param_tokens_skip s t :
  count_char "$" s = 0 -> param_tokens (s +:+ t) = param_tokens t.
Proof.
  induction s as [|a s IH]; intros Hs; [reflexivity|].
  apply count_char_cons_0 in Hs as [Hne Hs]. simpl.
  destruct (Ascii.eqb_spec a "$") as [?|_]; [contradiction|]. by apply IH.
Qed.

Lemma take_digits_none s : starts_with_digit s = false -> take_digits s = "".
Proof. destruct s as [|a s]; [reflexivity|]. simpl. by intros ->. Qed.

Lemma with_params_starts i segs :
  Forall plain segs -> starts_with_digit (with_params i segs) = false.
Proof.
  destruct segs as [|s rest]; [reflexivity|].
  intros [[_ Hs] _]%Forall_cons.
  destruct rest as [|s' rest]; [exact Hs|].
  rewrite with_params_cons. destruct s; [reflexivity | exact Hs].
Qed.

Lemma param_tokens_with_params segs : forall i,
  Forall plain segs ->
  param_tokens (with_params i segs) = map itoa (seq (i + 1) (length segs - 1)).
Proof.
  induction segs as [|s rest IH]; intros i Hsegs; [reflexivity|].
  pose proof Hsegs as [[Hs _] Hrest]%Forall_cons.
  destruct rest as [|s' rest].
  - simpl. rewrite <- (append_nil_r s). by rewrite param_tokens_skip.
  - rewrite with_params_cons, param_tokens_skip by done.
    unfold Sprintf_dollar at 1. cbn [String.append param_tokens].
    rewrite Ascii.eqb_refl. unfold itoa at 1 2.
    rewrite uint_digits_take, take_digits_none by (by apply with_params_starts).
    rewrite append_nil_r. fold (itoa (i + 1)).
    rewrite param_tokens_skip by apply itoa_no_dollar.
    rewrite IH by exact Hrest.
    replace (i + 1 + 1) with (S (i + 1)) by lia.
    simpl. by rewrite Nat.sub_0_r.
Qed.

End Renumbering.

(** ** The execution primitives *)

Ltac run :=
  unfold mbind, M_bind, mret, M_ret, history, emit, fresh, panic, when_; simpl.

Ltac same_world :=
  unfold after; simpl; rewrite <- ?app_assoc; simpl; rewrite ?app_nil_r;
  try reflexivity.

Section Execution.
Context `{C : Collaborators}.

Lemma after_nil w : after w [] 0 = w.
Proof. destruct w. unfold after. simpl. by rewrite app_nil_r. Qed.

Lemma after_after w evs k evs' k' :
  after (after w evs k) evs' k' = after w (evs ++ evs') (k' + k).
Proof. unfold after. simpl. rewrite <- app_assoc. f_equal. lia. Qed.

Lemma deref_run self s w : heap w !! self = Some s -> deref self w = Ret s w.
Proof. intros H. unfold deref. by rewrite H. Qed.

Lemma compile_query_run stmt args w :
  let query := renumber (Compile stmt) (length args) in
  compile_query stmt args w
  = Ret query (after w (debug_report (trace w) query args) 0).
Proof.
  unfold compile_query, debugEnabled, debug_report. run.
  destruct (String.eqb _ _); simpl; f_equal; destruct w; same_world.
Qed.

Lemma dbBegin_run db w :
  dbBegin db w =
  match db_Begin (trace w) db with
  | None => Ret (inl (next w)) (after w [EvBegin db] 1)
  | Some msg => Ret (inr (ErrDriver msg)) (after w [EvBegin db] 0)
  end.
Proof. unfold dbBegin. run. by destruct (db_Begin _ _). Qed.

Lemma txExec_run t query args w :
  txExec t query args w =
  Ret match tx_Exec (trace w) t query args with
      | inl res => inl res
      | inr msg => inr (ErrDriver msg)
      end (after w [EvExec t query args] 0).
Proof. unfold txExec. run. by destruct (tx_Exec _ _ _ _). Qed.

Lemma txQuery_run t query args w :
  txQuery t query args w =
  match tx_Query (trace w) t query args with
  | inl data => Ret (inl {| rows_id := next w; rows_data := data |})
                    (after w [EvQuery t query args] 1)
  | inr msg => Ret (inr (ErrDriver msg)) (after w [EvQuery t query args] 0)
  end.
Proof. unfold txQuery. run. by destruct (tx_Query _ _ _ _). Qed.

Lemma txQueryRow_run t query args w :
  txQueryRow t query args w =
  Ret (tx_QueryRow (trace w) t query args) (after w [EvQueryRow t query args] 0).
Proof. reflexivity. Qed.

Lemma txCommit_run t w :
  txCommit t w =
  Ret match tx_Commit (trace w) t with
      | None => None
      | Some msg => Some (ErrDriver msg)
      end (after w [EvCommit t] 0).
Proof. unfold txCommit. run. by destruct (tx_Commit _ _). Qed.

Lemma bind_run {A B} (m : M A) (k : A -> M B) w a w' :
  m w = Ret a w' -> (m ≫= k) w = k a w'.
Proof. intros H. unfold mbind, M_bind. by rewrite H. Qed.

(** The guard at the head of the three primitives. *)
Lemma primitives_not_connected self s stmt args w :
  heap w !! self = Some s ->
  session s = None ->
  doExec self stmt args w = Ret (None, Some ErrNotConnected) w /\
  doQuery self stmt args w = Ret (None, Some ErrNotConnected) w /\
  doQueryRow self stmt args w = Ret (None, Some ErrNotConnected) w.
Proof.
  intros Hself Hsession.
  unfold doExec, doQuery, doQueryRow.
  rewrite !(bind_run _ _ _ _ _ (deref_run _ _ _ Hself)), Hsession.
  by repeat split.
Qed.

(** C4. On a session whose connection handle is nil, each of the three
    primitives returns [ErrNotConnected] and leaves the world as it
    was: nothing is compiled, reported, begun or sent. *)
Theorem not_connected_fails_without_io self s stmt args w :
  heap w !! self = Some s ->
  session s = None ->
  doExec self stmt args w = Ret (None, Some ErrNotConnected) w /\
  doQuery self stmt args w = Ret (None, Some ErrNotConnected) w /\
  doQueryRow self stmt args w = Ret (None, Some ErrNotConnected) w.
Proof. apply primitives_not_connected. Qed.

(** [doExec] without an explicit transaction, outcome by outcome. *)
Lemma doExec_autocommit_run self s db stmt args w :
  heap w !! self = Some s ->
  session s = Some db ->
  tx s = None ->
  let query := renumber (Compile stmt) (length args) in
  let w0 := after w (debug_report (trace w) query args) 0 in
  let t := next w in
  doExec self stmt args w =
  match db_Begin (trace w0) db with
  | Some msg =>
      Ret (None, Some (ErrDriver msg)) (after w0 [EvBegin db] 0)
  | None =>
      match tx_Exec (trace w0 ++ [EvBegin db]) t query args with
      | inr msg =>
          Ret (None, Some (ErrDriver msg))
              (after w0 [EvBegin db; EvExec t query args] 1)
      | inl res =>
          match tx_Commit (trace w0 ++ [EvBegin db; EvExec t query args]) t with
          | Some msg =>
              Ret (None, Some (ErrDriver msg))
                  (after w0 [EvBegin db; EvExec t query args; EvCommit t] 1)
          | None =>
              Ret (Some res, None)
                  (after w0 [EvBegin db; EvExec t query args; EvCommit t] 1)
          end
      end
  end.
Proof.
  intros Hself Hsession Htx query w0 t.
  unfold doExec.
  rewrite (bind_run _ _ _ _ _ (deref_run _ _ _ Hself)), Hsession.
  rewrite (bind_run _ _ _ _ _ (compile_query_run stmt args w)), Htx.
  fold query w0.
  unfold mbind, M_bind. rewrite dbBegin_run.
  destruct (db_Begin (trace w0) db) as [msg|]; [reflexivity|].
  rewrite txExec_run. change (next w0) with t.
  change (trace (after w0 [EvBegin db] 1)) with (trace w0 ++ [EvBegin db]).
  destruct (tx_Exec _ t query args) as [res|msg]; [|run; f_equal; same_world].
  rewrite txCommit_run.
  replace (trace (after (after w0 [EvBegin db] 1) [EvExec t query args] 0))
    with (trace w0 ++ [EvBegin db; EvExec t query args]) by same_world.
  destruct (tx_Commit _ t) as [msg|]; run; f_equal; same_world.
Qed.

(** C2. [doExec] on an open session without an explicit transaction:
    after the prologue a transaction is begun; a failed [Begin] ends
    the call with its error; a failed statement ends the call with its
    error and no commit; a failed commit ends the call with the commit
    error and no result; otherwise the result comes back with a nil
    error. *)
Theorem doExec_implicit_transaction self s db stmt args w :
  heap w !! self = Some s ->
  session s = Some db ->
  tx s = None ->
  let query := renumber (Compile stmt) (length args) in
  let w0 := after w (debug_report (trace w) query args) 0 in
  let t := next w in
  doExec self stmt args w =
  match db_Begin (trace w0) db with
  | Some msg =>
      Ret (None, Some (ErrDriver msg)) (after w0 [EvBegin db] 0)
  | None =>
      match tx_Exec (trace w0 ++ [EvBegin db]) t query args with
      | inr msg =>
          Ret (None, Some (ErrDriver msg))
              (after w0 [EvBegin db; EvExec t query args] 1)
      | inl res =>
          match tx_Commit (trace w0 ++ [EvBegin db; EvExec t query args]) t with
          | Some msg =>
              Ret (None, Some (ErrDriver msg))
                  (after w0 [EvBegin db; EvExec t query args; EvCommit t] 1)
          | None =>
              Ret (Some res, None)
                  (after w0 [EvBegin db; EvExec t query args; EvCommit t] 1)
          end
      end
  end.
Proof. apply doExec_autocommit_run. Qed.

(** On a session inside an explicit transaction the statement runs on
    that transaction, with nothing begun and nothing committed. *)
Lemma doExec_explicit_transaction self s db t stmt args w :
  heap w !! self = Some s ->
  session s = Some db ->
  tx s = Some t ->
  let query := renumber (Compile stmt) (length args) in
  let w0 := after w (debug_report (trace w) query args) 0 in
  doExec self stmt args w =
  Ret (go_pair match tx_Exec (trace w0) t query args with
               | inl res => inl res
               | inr msg => inr (ErrDriver msg)
               end)
      (after w0 [EvExec t query args] 0).
Proof.
  intros Hself Hsession Htx query w0.
  unfold doExec.
  rewrite (bind_run _ _ _ _ _ (deref_run _ _ _ Hself)), Hsession.
  rewrite (bind_run _ _ _ _ _ (compile_query_run stmt args w)), Htx.
  fold query w0. unfold mbind, M_bind. by rewrite txExec_run.
Qed.

(** [doQuery], in both modes. *)
Lemma doQuery_run self s db stmt args w :
  heap w !! self = Some s ->
  session s = Some db ->
  let query := renumber (Compile stmt) (length args) in
  let w0 := after w (debug_report (trace w) query args) 0 in
  doQuery self stmt args w =
  match tx s with
  | Some t =>
      match tx_Query (trace w0) t query args with
      | inl data =>
          Ret (Some {| rows_id := next w; rows_data := data |}, None)
              (after w0 [EvQuery t query args] 1)
      | inr msg =>
          Ret (None, Some (ErrDriver msg)) (after w0 [EvQuery t query args] 0)
      end
  | None =>
      let t := next w in
      match db_Begin (trace w0) db with
      | Some msg => Ret (None, Some (ErrDriver msg)) (after w0 [EvBegin db] 0)
      | None =>
          match tx_Query (trace w0 ++ [EvBegin db]) t query args with
          | inr msg =>
              Ret (None, Some (ErrDriver msg))
                  (after w0 [EvBegin db; EvQuery t query args] 1)
          | inl data =>
              let rows := {| rows_id := S t; rows_data := data |} in
              match tx_Commit (trace w0 ++ [EvBegin db; EvQuery t query args]) t with
              | Some msg =>
                  Ret (None, Some (ErrDriver msg))
                      (after w0 [EvBegin db; EvQuery t query args; EvCommit t] 2)
              | None =>
                  Ret (Some rows, None)
                      (after w0 [EvBegin db; EvQuery t query args; EvCommit t] 2)
              end
          end
      end
  end.
Proof.
  intros Hself Hsession query w0.
  unfold doQuery.
  rewrite (bind_run _ _ _ _ _ (deref_run _ _ _ Hself)), Hsession.
  rewrite (bind_run _ _ _ _ _ (compile_query_run stmt args w)).
  fold query w0. destruct (tx s) as [t|].
  - unfold mbind, M_bind. rewrite txQuery_run.
    by destruct (tx_Query _ t query args).
  - unfold mbind, M_bind. rewrite dbBegin_run.
    destruct (db_Begin (trace w0) db) as [msg|]; [reflexivity|].
    rewrite txQuery_run.
    change (trace (after w0 [EvBegin db] 1)) with (trace w0 ++ [EvBegin db]).
    change (next w0) with (next w).
    destruct (tx_Query _ (next w) query args) as [data|msg];
      [|run; f_equal; same_world].
    rewrite txCommit_run.
    replace (trace (after (after w0 [EvBegin db] 1) [EvQuery (next w) query args] 1))
      with (trace w0 ++ [EvBegin db; EvQuery (next w) query args]) by same_world.
    destruct (tx_Commit _ (next w)) as [msg|]; run; f_equal; same_world.
Qed.

(** C9. [doQueryRow] on an open session without an explicit
    transaction, when [Begin] succeeds: the row is requested, the
    transaction is committed, and the outcome depends on the commit
    alone. The row comes back with a nil error whatever error it
    carries inside; a failed [Begin] is the only other error there is. *)
Theorem doQueryRow_never_reports_statement_error self s db stmt args w :
  heap w !! self = Some s ->
  session s = Some db ->
  tx s = None ->
  let query := renumber (Compile stmt) (length args) in
  let w0 := after w (debug_report (trace w) query args) 0 in
  let t := next w in
  let row := tx_QueryRow (trace w0 ++ [EvBegin db]) t query args in
  doQueryRow self stmt args w =
  match db_Begin (trace w0) db with
  | Some msg => Ret (None, Some (ErrDriver msg)) (after w0 [EvBegin db] 0)
  | None =>
      Ret match tx_Commit (trace w0 ++ [EvBegin db; EvQueryRow t query args]) t with
          | Some msg => (None, Some (ErrDriver msg))
          | None => (Some row, None)
          end
          (after w0 [EvBegin db; EvQueryRow t query args; EvCommit t] 1)
  end.
Proof.
  intros Hself Hsession Htx query w0 t row.
  unfold doQueryRow.
  rewrite (bind_run _ _ _ _ _ (deref_run _ _ _ Hself)), Hsession.
  rewrite (bind_run _ _ _ _ _ (compile_query_run stmt args w)), Htx.
  fold query w0. unfold mbind, M_bind. rewrite dbBegin_run.
  destruct (db_Begin (trace w0) db) as [msg|]; [reflexivity|].
  rewrite txQueryRow_run, txCommit_run.
  replace (trace (after (after w0 [EvBegin db] 1) [EvQueryRow (next w0) query args] 0))
    with (trace w0 ++ [EvBegin db; EvQueryRow t query args]) by same_world.
  change (next w0) with t.
  destruct (tx_Commit _ t) as [msg|]; run; f_equal; same_world.
Qed.

End Execution.

Section Placeholders.
Context `{C : Collaborators}.

(** C3. When the compiler emits one [?] per bound value, so that the
    compiled text is [s0 ? s1 ? ... ? sN] with [N] the number of
    arguments and no other [?], the text that the three primitives
    send is [s0 $1 s1 $2 ... $N sN]: no [?] is left, and when the
    segments carry no parameter syntax of their own its tokens are
    exactly [$1] to [$N], from left to right. *)
Theorem placeholders_renumbered_in_order stmt args segs :
  Compile stmt = with_placeholders segs ->
  length segs = S (length args) ->
  Forall (fun s => count_char "?" s = 0) segs ->
  let sent := with_params 0 segs in
  renumber (Compile stmt) (length args) = sent /\
  (forall w, compile_query stmt args w
             = Ret sent (after w (debug_report (trace w) sent args) 0)) /\
  count_char "?" sent = 0 /\
  (Forall plain segs -> param_tokens sent = map itoa (seq 1 (length args))).
Proof.
  intros Hcompile Hlen Hsegs sent.
  assert (renumber (Compile stmt) (length args) = sent) as Hsent.
  { rewrite Hcompile. unfold renumber.
    by apply (renumber_loop_segments segs (length args) 0 ""). }
  split; [exact Hsent|]. split; [|split].
  - intros w. rewrite compile_query_run. simpl. by rewrite Hsent.
  - by apply with_params_no_qmark.
  - intros Hplain. unfold sent. rewrite param_tokens_with_params by done.
    rewrite Hlen. simpl. by rewrite Nat.sub_0_r.
Qed.

End Placeholders.

(** ** Type resolution *)

Section TypeResolution.
Context `{C : Collaborators}.

(** The switch is the table, with the string kind for the rest. *)
Lemma guess_kind_table dtype : guess_kind dtype = table_kind dtype.
Proof.
  unfold guess_kind, table_kind, type_table, assoc.
  repeat (destruct (String.eqb dtype _); [reflexivity|]; simpl).
  reflexivity.
Qed.

Lemma column_types_snoc cols c :
  column_types (cols ++ [c]) = set_column_type (column_types cols) c.
Proof. unfold column_types. by rewrite fold_left_app. Qed.

(** The keys of the map are the lower-cased column names. *)
Lemma column_types_keys cols key :
  is_Some (column_types cols !! key)
  <-> exists c, c ∈ cols /\ key = ToLower (ColumnName c).
Proof.
  induction cols as [|c cols IH] using rev_ind.
  - unfold column_types. simpl. rewrite lookup_empty. split.
    + by intros [? ?].
    + intros (c & Hc & _). by apply elem_of_nil in Hc.
  - rewrite column_types_snoc. unfold set_column_type. simpl.
    destruct (decide (ToLower (ColumnName c) = key)) as [<-|Hne].
    + rewrite lookup_insert_eq. split; [|by eauto].
      intros _. exists c. split; [|done]. apply elem_of_app. right. by left.
    + rewrite lookup_insert_ne by done. rewrite IH. split.
      * intros (c' & Hc' & ->). exists c'. split; [|done].
        apply elem_of_app. by left.
      * intros (c' & Hc' & ->). apply elem_of_app in Hc' as [Hc'|Hc'].
        -- by exists c'.
        -- apply list_elem_of_singleton in Hc' as ->. by destruct Hne.
Qed.

(** A stored kind is the kind of a catalog row with that lower-cased
    name. *)
Lemma column_types_lookup cols key k :
  column_types cols !! key = Some k ->
  exists c, c ∈ cols /\ ToLower (ColumnName c) = key /\
            k = table_kind (ToLower (DataType c)).
Proof.
  induction cols as [|c cols IH] using rev_ind.
  - unfold column_types. simpl. by rewrite lookup_empty.
  - rewrite column_types_snoc. unfold set_column_type. simpl.
    destruct (decide (ToLower (ColumnName c) = key)) as [<-|Hne].
    + rewrite lookup_insert_eq. intros [= <-]. exists c.
      split; [apply elem_of_app; right; by left|].
      split; [done | apply guess_kind_table].
    + rewrite lookup_insert_ne by done. intros (c' & Hc' & ? & ?)%IH.
      exists c'. split; [apply elem_of_app; by left | done].
Qed.

(** The map depends on the lower-cased rows only. *)
Lemma column_types_lowered cols cols' :
  lowered <$> cols = lowered <$> cols' -> column_types cols = column_types cols'.
Proof.
  unfold column_types. generalize (∅ : gmap string reflect.Kind).
  revert cols'. induction cols as [|c cols IH]; intros [|c' cols'] m Heq;
    try discriminate; [reflexivity|].
  injection Heq as Hname Htype Hrest. simpl.
  replace (set_column_type m c') with (set_column_type m c).
  - by apply IH.
  - unfold set_column_type. simpl. by rewrite Hname, Htype.
Qed.

End TypeResolution.

(** ** Catalog introspection *)

Section Introspection.
Context `{C : Collaborators}.

Lemma run_deferred_run deferred w :
  run_deferred deferred w
  = Ret tt (after w ((fun rows => EvRowsClose (rows_id rows)) <$> deferred) 0).
Proof.
  revert w. induction deferred as [|rows older IH]; intros w.
  - simpl. by rewrite after_nil.
  - cbn [run_deferred]. unfold rowsClose. run. rewrite IH. f_equal. same_world.
Qed.

Lemma rowsNext_run rows pending w :
  rowsNext rows pending w =
  Ret match pending with
      | [] => None
      | row :: rest => Some (row, rest)
      end (after w [EvNext (rows_id rows)] 0).
Proof. unfold rowsNext. run. by destruct pending. Qed.

Lemma binds_only_mono idents idents' ev :
  idents ⊆ idents' -> binds_only idents ev -> binds_only idents' ev.
Proof.
  intros Hsub. destruct ev; simpl; try done;
    intros (ident & Hin & ->); exists ident; split; auto.
Qed.

Lemma binds_only_debug_report idents h query name :
  name ∈ idents -> Forall (binds_only idents) (debug_report h query [VStr name]).
Proof.
  intros Hin. unfold debug_report. destruct (String.eqb _ _); by repeat constructor.
Qed.

(** [doQuery] never panics on a valid session pointer, answers with
    rows or with an error, never both or neither, leaves the objects
    alone, and sends no statement bound to anything but its argument. *)
Lemma doQuery_outcome self s stmt name w :
  heap w !! self = Some s ->
  exists r evs k,
    doQuery self stmt [VStr name] w = Ret r (after w evs k) /\
    ((exists rows, r = (Some rows, None)) \/ (exists err, r = (None, Some err))) /\
    Forall (binds_only [name]) evs.
Proof.
  intros Hself.
  assert (name ∈ [name]) as Hin by by left.
  assert (binds_only [name] (EvQuery (next w) (renumber (Compile stmt) 1) [VStr name]))
    as Hq by (simpl; eauto).
  destruct (session s) as [db|] eqn:Hsession.
  - rewrite (doQuery_run self s db) by done. cbn zeta.
    set (query := renumber (Compile stmt) (length [VStr name])).
    set (dbg := debug_report (trace w) query [VStr name]).
    assert (Forall (binds_only [name]) dbg) as Hdbg
      by by apply binds_only_debug_report.
    destruct (tx s) as [t|].
    + destruct (tx_Query _ t query _) as [data|msg];
        eexists _, _, _; (split; [by rewrite after_after|]);
        (split; [eauto|]); apply Forall_app; (split; [done|]);
        repeat constructor; simpl; eauto.
    + destruct (db_Begin _ db) as [msg|].
      { eexists _, _, _. split; [by rewrite after_after|]. split; [eauto|].
        apply Forall_app. split; [done|]. by repeat constructor. }
      destruct (tx_Query _ _ query _) as [data|msg].
      * destruct (tx_Commit _ _) as [msg|];
          eexists _, _, _; (split; [by rewrite after_after|]);
          (split; [eauto|]); apply Forall_app; (split; [done|]);
          repeat constructor; simpl; eauto.
      * eexists _, _, _. split; [by rewrite after_after|]. split; [eauto|].
        apply Forall_app. split; [done|]. repeat constructor; simpl; eauto.
  - destruct (primitives_not_connected self s stmt [VStr name] w)
      as (_ & -> & _); [done..|].
    exists (None, Some ErrNotConnected), [], 0.
    rewrite after_nil. split; [done|]. split; [eauto | constructor].
Qed.

(** [tableExists] on one name, in terms of the existence query. *)
Lemma tableExists_single self name w :
  tableExists self [name] w =
  match doQuery self existsStmt [VStr name] w with
  | Ret (_, Some _) w1 => Ret (Some ErrCollectionDoesNotExists) w1
  | Ret (Some rows, None) w1 =>
      Ret match rows_data rows with
          | [] => Some ErrCollectionDoesNotExists
          | _ :: _ => None
          end
          (after w1 [EvNext (rows_id rows); EvRowsClose (rows_id rows)] 0)
  | Ret (None, None) _ => Panic
  | Panic => Panic
  end.
Proof.
  unfold tableExists. cbn [tableExists_loop]. unfold mbind at 1, M_bind at 1.
  destruct (doQuery self existsStmt [VStr name] w) as [[rows err] w1|]; [|done].
  destruct err as [err|].
  { run. by destruct rows. }
  destruct rows as [rows|]; [|done].
  unfold mbind, M_bind. rewrite rowsNext_run.
  destruct (rows_data rows) as [|row rest]; simpl; run; f_equal; same_world.
Qed.

Lemma binds_only_closes idents (deferred : list Rows) :
  Forall (binds_only idents) ((fun rows => EvRowsClose (rows_id rows)) <$> deferred).
Proof. apply Forall_fmap, Forall_true. done. Qed.

Ltac solve_binds :=
  repeat first
    [ assumption
    | exact I
    | apply binds_only_closes
    | apply Forall_nil
    | apply Forall_app; split
    | apply Forall_cons; split ].

(** Whatever happens, [tableExists] reports nothing but a missing
    collection. *)
Lemma tableExists_loop_outcome self s names0 : forall deferred w,
  heap w !! self = Some s ->
  exists r evs k,
    tableExists_loop self names0 deferred w = Ret r (after w evs k) /\
    (r = None \/ r = Some ErrCollectionDoesNotExists) /\
    Forall (binds_only names0) evs.
Proof.
  induction names0 as [|name rest IH]; intros deferred w Hself.
  - cbn [tableExists_loop]. unfold mbind, M_bind. rewrite run_deferred_run.
    eexists _, _, _. split; [reflexivity|]. split; [by left | solve_binds].
  - destruct (doQuery_outcome self s existsStmt name w Hself)
      as (r & evs & k & Hq & Hr & Hevs).
    assert (Forall (binds_only (name :: rest)) evs) as Hevs'.
    { eapply Forall_impl; [exact Hevs|]. intros ev. apply binds_only_mono.
      intros x ->%list_elem_of_singleton. by left. }
    cbn [tableExists_loop]. rewrite (bind_run _ _ _ _ _ Hq).
    destruct Hr as [[rows ->]|[err ->]].
    + unfold mbind at 1, M_bind at 1. rewrite rowsNext_run.
      destruct (rows_data rows) as [|row more].
      * unfold mbind, M_bind. rewrite run_deferred_run. run.
        rewrite !after_after. eexists _, _, _. split; [reflexivity|].
        split; [by right | solve_binds].
      * destruct (IH (rows :: deferred)
                     (after (after w evs k) [EvNext (rows_id rows)] 0))
          as (r' & evs' & k' & -> & Hr' & Hevs''); [done|].
        rewrite !after_after. eexists _, _, _. split; [reflexivity|].
        split; [done|]. solve_binds.
        eapply Forall_impl; [exact Hevs''|]. intros ev. apply binds_only_mono.
        intros x Hx. by right.
    + unfold mbind, M_bind. rewrite run_deferred_run. run.
      rewrite !after_after. eexists _, _, _. split; [reflexivity|].
      split; [by right | solve_binds].
Qed.

(** *** Collections *)

Lemma Collections_loop_run rows : forall pending collection acc w,
  Collections_loop rows pending collection acc w =
  Ret (acc ++ scanned collection pending)
      (after w (replicate (S (length pending)) (EvNext (rows_id rows))) 0).
Proof.
  induction pending as [|row rest IH]; intros collection acc w.
  - cbn [Collections_loop]. unfold mbind, M_bind. rewrite rowsNext_run.
    run. by rewrite app_nil_r.
  - cbn [Collections_loop]. unfold mbind, M_bind. rewrite rowsNext_run.
    rewrite IH, after_after. cbn [scanned]. unfold scanned_entry.
    by rewrite <- app_assoc.
Qed.

Lemma scanned_length pending : forall previous,
  length (scanned previous pending) = length pending.
Proof. induction pending as [|row rest IH]; intros previous; simpl; auto. Qed.

Lemma scanned_lookup pending : forall previous i row,
  pending !! i = Some row ->
  scanned previous pending !! i =
  Some (scanned_entry row
          match i with
          | 0 => previous
          | S j => default "" (scanned previous pending !! j)
          end).
Proof.
  induction pending as [|row0 rest IH]; intros previous i row Hrow; [done|].
  destruct i as [|j]; simpl in *.
  - by injection Hrow as ->.
  - rewrite (IH _ j row Hrow). by destruct j.
Qed.

(** C10. When the catalog query of [Collections] succeeds, the call
    returns a nil error and one entry per delivered row, whether or
    not the row could be scanned: the entry of a row that fails to
    scan is the value left by the row before it, the empty string for
    the first row. *)
Theorem Collections_discards_scan_errors self w rows w1 :
  doQuery self tablesStmt [] w = Ret (Some rows, None) w1 ->
  let out := scanned "" (rows_data rows) in
  Collections self w
  = Ret (out, None)
        (after w1 (replicate (S (length (rows_data rows))) (EvNext (rows_id rows))
                   ++ [EvRowsClose (rows_id rows)]) 0) /\
  length out = length (rows_data rows) /\
  forall i row,
    rows_data rows !! i = Some row ->
    out !! i = Some match rows_Scan row with
                    | inl v => v
                    | inr _ => match i with
                               | 0 => ""
                               | S j => default "" (out !! j)
                               end
                    end.
Proof.
  intros Hq out. split; [|split].
  - unfold Collections. rewrite (bind_run _ _ _ _ _ Hq).
    unfold mbind, M_bind. rewrite Collections_loop_run.
    unfold rowsClose. run. f_equal. same_world.
  - apply scanned_length.
  - intros i row Hrow. unfold out. by rewrite (scanned_lookup _ _ _ _ Hrow).
Qed.

(** *** Collection *)

Lemma cut_space_first_token s :
  match cut_space s with
  | Some (a, _) => a = first_token s
  | None => first_token s = s
  end.
Proof.
  induction s as [|c s IH]; [reflexivity|]. simpl.
  destruct (Ascii.eqb c " "); [reflexivity|].
  destruct (cut_space s) as [[a b]|]; by rewrite IH.
Qed.

(** [chunks[0]] is the text before the first space, and there always
    is a [chunks[0]]. *)
Lemma SplitN2_head s : exists tl, SplitN2 s = first_token s :: tl.
Proof.
  unfold SplitN2. pose proof (cut_space_first_token s) as H.
  destruct (cut_space s) as [[a b]|]; rewrite H; eauto.
Qed.

(** One turn of the loop of [Collection]. *)
Lemma Collection_loop_step self name rest cols types w :
  Collection_loop self (name :: rest) cols types w =
  match tableExists self [first_token name] w with
  | Ret (Some err) w1 => Ret (None, Some err) w1
  | Ret None w1 =>
      match doQuery self columnsStmt [VStr (first_token name)] w1 with
      | Ret (_, Some err) w2 => Ret (None, Some err) w2
      | Ret (Some rows, None) w2 =>
          match FetchRows cols rows with
          | (_, Some err) => Ret (None, Some err) w2
          | (cols', None) =>
              Collection_loop self rest cols' (Some (column_types cols')) w2
          end
      | Ret (None, None) _ => Panic
      | Panic => Panic
      end
  | Panic => Panic
  end.
Proof.
  cbn [Collection_loop]. destruct (SplitN2_head name) as [tl ->].
  unfold mbind, M_bind.
  destruct (tableExists self [first_token name] w) as [[err|] w1|]; [done| |done].
  destruct (doQuery self columnsStmt [VStr (first_token name)] w1)
    as [[rows [err|]] w2|]; [by destruct rows| |done].
  destruct rows as [rows|]; [|done].
  by destruct (FetchRows cols rows) as [cols' [err|]].
Qed.

(** The loop never panics on a valid session pointer; every statement
    it sends is bound to the first token of one of the names; and the
    map it ends with is built from rows decoded by [FetchRows]. *)
Lemma Collection_loop_outcome self s names0 : forall cols types w,
  heap w !! self = Some s ->
  exists r evs k,
    Collection_loop self names0 cols types w = Ret r (after w evs k) /\
    Forall (binds_only (first_token <$> names0)) evs /\
    match r with
    | (Some m, None) =>
        (names0 = [] /\ types = Some m) \/
        exists dst rows cols', FetchRows dst rows = (cols', None) /\
                               m = column_types cols'
    | (None, None) => names0 = [] /\ types = None
    | (None, Some _) => True
    | (Some _, Some _) => False
    end.
Proof.
  induction names0 as [|name rest IH]; intros cols types w Hself.
  - exists (types, None), [], 0. rewrite after_nil. split; [done|].
    split; [constructor|]. destruct types; auto.
  - rewrite Collection_loop_step.
    destruct (tableExists_loop_outcome self s [first_token name] [] w Hself)
      as (r1 & evs1 & k1 & Ht & Hr1 & Hevs1).
    assert (forall evs, Forall (binds_only [first_token name]) evs ->
              Forall (binds_only (first_token <$> name :: rest)) evs) as Hmono.
    { intros evs H. eapply Forall_impl; [exact H|]. intros ev.
      apply binds_only_mono. intros x ->%list_elem_of_singleton. by left. }
    unfold tableExists. rewrite Ht.
    destruct Hr1 as [->| ->].
    2:{ eexists _, _, _. split; [reflexivity|]. split; [auto|done]. }
    destruct (doQuery_outcome self s columnsStmt (first_token name)
                (after w evs1 k1) Hself)
      as (r2 & evs2 & k2 & -> & Hr2 & Hevs2).
    destruct Hr2 as [[rows ->]|[err ->]].
    2:{ rewrite after_after. eexists _, _, _. split; [reflexivity|].
        split; [|done]. apply Forall_app. auto. }
    destruct (FetchRows cols rows) as [cols' [err|]] eqn:Hfetch.
    { rewrite after_after. eexists _, _, _. split; [reflexivity|].
      split; [|done]. apply Forall_app. auto. }
    destruct (IH cols' (Some (column_types cols'))
                (after (after w evs1 k1) evs2 k2) Hself)
      as (r & evs & k & -> & Hevs & Hr).
    rewrite !after_after. eexists _, _, _. split; [reflexivity|]. split.
    + repeat (apply Forall_app; split); auto.
      eapply Forall_impl; [exact Hevs|]. intros ev. apply binds_only_mono.
      intros x Hx. by right.
    + destruct r as [[m|] [err|]]; try done.
      * right. destruct Hr as [[_ [= <-]]|Hr]; eauto.
      * by destruct Hr as [_ ?].
Qed.

Lemma Collection_single self name w :
  Collection self [name] w = resolve_one self name w.
Proof.
  unfold Collection, resolve_one. change (length [name] =? 0) with false. cbv iota.
  unfold mbind, M_bind. rewrite Collection_loop_step.
  destruct (tableExists self [first_token name] w) as [[err|] w1|]; [done| |done].
  destruct (doQuery self columnsStmt [VStr (first_token name)] w1)
    as [[rows [err|]] w2|]; [by destruct rows| |done].
  destruct rows as [rows|]; [|done].
  by destruct (FetchRows [] rows) as [cols' [err|]].
Qed.

(** C1, as the code has it. [tableExists] returns nil or
    [ErrCollectionDoesNotExists] and nothing else: it returns the
    latter when the existence query delivers no row and also when the
    existence query itself fails, whatever the failure. What stays
    apart from a missing table is a failure after the check: in
    [Collection] the column query runs only once the table exists,
    and its error, like the decoder's, comes back as it is. *)
Theorem tableExists_reports_only_missing self s names0 name w :
  heap w !! self = Some s ->
  (exists r w', tableExists self names0 w = Ret r w' /\
                (r = None \/ r = Some ErrCollectionDoesNotExists)) /\
  tableExists self [name] w =
    match doQuery self existsStmt [VStr name] w with
    | Ret (_, Some _) w1 => Ret (Some ErrCollectionDoesNotExists) w1
    | Ret (Some rows, None) w1 =>
        Ret match rows_data rows with
            | [] => Some ErrCollectionDoesNotExists
            | _ :: _ => None
            end
            (after w1 [EvNext (rows_id rows); EvRowsClose (rows_id rows)] 0)
    | Ret (None, None) _ => Panic
    | Panic => Panic
    end /\
  Collection self [name] w = resolve_one self name w.
Proof.
  intros Hself. split; [|split].
  - destruct (tableExists_loop_outcome self s names0 [] w Hself)
      as (r & evs & k & Ht & Hr & _).
    by exists r, (after w evs k).
  - apply tableExists_single.
  - apply Collection_single.
Qed.

(** The kind stored for a row that no later row shadows. *)
Lemma column_types_last cols1 c cols2 :
  ToLower (ColumnName c) ∉ ((fun c' => ToLower (ColumnName c')) <$> cols2) ->
  column_types (cols1 ++ c :: cols2) !! ToLower (ColumnName c)
  = Some (table_kind (ToLower (DataType c))).
Proof.
  induction cols2 as [|c2 cols2 IH] using rev_ind; intros Hc.
  - rewrite column_types_snoc. unfold set_column_type. simpl.
    by rewrite lookup_insert_eq, guess_kind_table.
  - rewrite fmap_app, not_elem_of_app in Hc. destruct Hc as [Hc Hc2].
    rewrite app_comm_cons, app_assoc, column_types_snoc.
    unfold set_column_type. simpl.
    rewrite lookup_insert_ne; [by apply IH|].
    intros Heq. apply Hc2. rewrite <- Heq. by left.
Qed.

(** C5. Type resolution lower-cases the raw type and looks it up in
    the table; a name that the table does not list resolves to the
    string kind. The map of a handle is built row by row from these
    kinds and from nothing else: it is empty for no rows, every row
    stores the kind of its lower-cased type under its lower-cased name,
    and a row that no later row shadows is found with that kind.
    Resolution has no failing step of its own: once the rows are
    decoded, [Collection] returns a handle. *)
Theorem unknown_types_resolve_to_string :
  (forall dtype, guess_kind dtype = table_kind dtype) /\
  (forall dtype, assoc dtype type_table = None -> guess_kind dtype = reflect.String) /\
  (forall types column,
     set_column_type types column
     = <[ToLower (ColumnName column) := table_kind (ToLower (DataType column))]> types) /\
  (forall self name w, Collection self [name] w = resolve_one self name w) /\
  (forall cols c, c ∈ cols -> is_Some (column_types cols !! ToLower (ColumnName c))) /\
  (guess_kind "int" = reflect.Int /\ guess_kind "int8" = reflect.Int8 /\
   guess_kind "int16" = reflect.Int16 /\ guess_kind "int32" = reflect.Int32 /\
   guess_kind "rune" = reflect.Int32 /\ guess_kind "int64" = reflect.Int64 /\
   guess_kind "uint" = reflect.Uint /\ guess_kind "uint8" = reflect.Uint8 /\
   guess_kind "uint16" = reflect.Uint16 /\ guess_kind "uint32" = reflect.Uint32 /\
   guess_kind "uint64" = reflect.Uint64 /\ guess_kind "float64" = reflect.Float64 /\
   guess_kind "float32" = reflect.Float32 /\ guess_kind "time" = reflect.Struct) /\
  column_types [] = ∅ /\
  (forall cols c,
     column_types (cols ++ [c])
     = <[ToLower (ColumnName c) := guess_kind (ToLower (DataType c))]> (column_types cols)) /\
  (forall cols1 c cols2,
     ToLower (ColumnName c) ∉ ((fun c' => ToLower (ColumnName c')) <$> cols2) ->
     column_types (cols1 ++ c :: cols2) !! ToLower (ColumnName c)
     = Some (guess_kind (ToLower (DataType c)))) /\
  (forall cols key kind,
     column_types cols !! key = Some kind ->
     exists c, c ∈ cols /\ ToLower (ColumnName c) = key /\
               kind = guess_kind (ToLower (DataType c))).
Proof.
  split; [exact guess_kind_table|]. split; [|split; [|split; [|split]]].
  - intros dtype Hnone. rewrite guess_kind_table. unfold table_kind. by rewrite Hnone.
  - intros types column. unfold set_column_type. simpl. by rewrite guess_kind_table.
  - apply Collection_single.
  - intros cols c Hc. apply column_types_keys. eauto.
  - split; [by repeat split|]. split; [reflexivity|]. split; [|split].
    + intros cols c. by rewrite column_types_snoc.
    + intros cols1 c cols2 Hc. rewrite guess_kind_table. by apply column_types_last.
    + intros cols key kind Hkind.
      destruct (column_types_lookup _ _ _ Hkind) as (c & Hc & Hkey & ->).
      exists c. by rewrite guess_kind_table.
Qed.

Lemma Collection_produces self s names0 w col w' :
  heap w !! self = Some s ->
  Collection self names0 w = Ret (Some col, None) w' ->
  names col = names0 /\ source col = self /\ PrimaryKey col = "id" /\
  exists dst rows cols,
    FetchRows dst rows = (cols, None) /\
    ColumnTypes col = Some (column_types cols).
Proof.
  intros Hself. unfold Collection.
  destruct names0 as [|name rest]; [done|].
  change (length (name :: rest) =? 0) with false. cbv iota.
  destruct (Collection_loop_outcome self s (name :: rest) [] None w Hself)
    as (r & evs & k & Hloop & _ & Hr).
  rewrite (bind_run _ _ _ _ _ Hloop).
  destruct r as [types [err|]]; [done|].
  intros [= <- _]. simpl. repeat split.
  destruct types as [m|].
  - destruct Hr as [[? _]|(dst & rows & cols & Hfetch & ->)]; [done|]. eauto.
  - by destruct Hr.
Qed.

(** C6. The map of a handle that [Collection] returns is built from
    the decoded catalog rows, and its keys are exactly their
    lower-cased names. So a lookup under the lower-cased form of any
    spelling of a column name finds the kind of a catalog row of that
    lower-cased name, and the map is the same whatever casing the
    catalog reported. *)
Theorem ColumnTypes_keys_are_lowercased self s names0 w col w' :
  heap w !! self = Some s ->
  Collection self names0 w = Ret (Some col, None) w' ->
  exists dst rows cols,
    FetchRows dst rows = (cols, None) /\
    ColumnTypes col = Some (column_types cols) /\
    (forall key, is_Some (column_types cols !! key)
                 <-> exists c, c ∈ cols /\ key = ToLower (ColumnName c)) /\
    (forall c query,
       c ∈ cols -> ToLower query = ToLower (ColumnName c) ->
       exists c', c' ∈ cols /\ ToLower (ColumnName c') = ToLower query /\
                  column_types cols !! ToLower query
                  = Some (table_kind (ToLower (DataType c')))) /\
    (forall cols', lowered <$> cols' = lowered <$> cols ->
                   column_types cols' = column_types cols).
Proof.
  intros Hself Hcol.
  destruct (Collection_produces _ _ _ _ _ _ Hself Hcol)
    as (_ & _ & _ & dst & rows & cols & Hfetch & Htypes).
  exists dst, rows, cols. split; [done|]. split; [done|]. split; [|split].
  - apply column_types_keys.
  - intros c query Hc Hquery.
    assert (is_Some (column_types cols !! ToLower query)) as [k Hk].
    { apply column_types_keys. eauto. }
    destruct (column_types_lookup _ _ _ Hk) as (c' & Hc' & Hname & ->). eauto.
  - intros cols'. apply column_types_lowered.
Qed.

(** C7. [Collection] sends the existence check and the column query
    with the text before the first space of each name and with nothing
    else, and the handle keeps the names as they were given. *)
Theorem Collection_uses_first_token self s names0 w :
  heap w !! self = Some s ->
  (forall name, Collection self [name] w = resolve_one self name w) /\
  exists r evs k,
    Collection self names0 w = Ret r (after w evs k) /\
    Forall (binds_only (first_token <$> names0)) evs /\
    (forall col, r.1 = Some col -> names col = names0).
Proof.
  intros Hself. split; [intros name; apply Collection_single|].
  unfold Collection. destruct names0 as [|name rest].
  { exists (None, Some ErrMissingCollectionName), [], 0. simpl.
    rewrite after_nil. split; [done|]. split; [constructor | done]. }
  change (length (name :: rest) =? 0) with false. cbv iota.
  destruct (Collection_loop_outcome self s (name :: rest) [] None w Hself)
    as (r & evs & k & Hloop & Hevs & _).
  rewrite (bind_run _ _ _ _ _ Hloop).
  destruct r as [types [err|]]; eexists _, _, _;
    (split; [reflexivity|]); (split; [exact Hevs|]); simpl; [done|].
  by intros col [= <-].
Qed.

End Introspection.

(** ** Sessions, clones and transactions *)

Section Sessions.
Context `{C : Collaborators}.

Lemma deref_last H x T n :
  deref (length H) {| heap := H ++ [x]; trace := T; next := n |}
  = Ret x {| heap := H ++ [x]; trace := T; next := n |}.
Proof. unfold deref. simpl. by rewrite list_lookup_middle. Qed.

Lemma store_last H x y T n :
  store (length H) y {| heap := H ++ [x]; trace := T; next := n |}
  = Ret tt {| heap := H ++ [y]; trace := T; next := n |}.
Proof.
  unfold store. simpl. rewrite list_lookup_middle by done.
  by rewrite insert_app_r_alt, Nat.sub_diag by done.
Qed.

Lemma Open_last H x T n :
  let dsn := Database (config x) in
  Open (length H) {| heap := H ++ [x]; trace := T; next := n |} =
  if String.eqb dsn "" then
    Ret (Some ErrMissingDatabaseName) {| heap := H ++ [x]; trace := T; next := n |}
  else
    match sql_Open T dsn with
    | None =>
        Ret None {| heap := H ++ [set_session x (Some n)];
                    trace := T ++ [EvOpen dsn]; next := S n |}
    | Some msg =>
        Ret (Some (ErrDriver msg))
            {| heap := H ++ [set_session x None];
               trace := T ++ [EvOpen dsn]; next := n |}
    end.
Proof.
  intros dsn. unfold Open. unfold mbind at 1, M_bind at 1. rewrite deref_last.
  fold dsn. destruct (String.eqb dsn ""); [reflexivity|].
  unfold sqlOpen. run.
  destruct (sql_Open T dsn) as [msg|]; simpl; by rewrite store_last.
Qed.

Lemma Setup_last H x cfg T n :
  Setup (length H) cfg {| heap := H ++ [x]; trace := T; next := n |} =
  Open (length H)
       {| heap := H ++ [ {| config := cfg; session := session x;
                            collections := Some ∅; tx := tx x |} ];
          trace := T; next := n |}.
Proof.
  unfold Setup. unfold mbind at 1, M_bind at 1. rewrite deref_last.
  unfold mbind, M_bind. by rewrite store_last.
Qed.

(** [clone], outcome by outcome. The connection is opened twice, by
    [Setup] and by [Open]; the clone keeps the second handle. *)
Lemma clone_run self s H T n :
  H !! self = Some s ->
  let dsn := Database (config s) in
  let n1 := match sql_Open T dsn with None => S n | Some _ => n end in
  clone self {| heap := H; trace := T; next := n |} =
  if String.eqb dsn "" then
    Ret (None, Some ErrMissingDatabaseName)
        {| heap := H ++ [cloned (config s) None None]; trace := T; next := n |}
  else
    match sql_Open (T ++ [EvOpen dsn]) dsn with
    | None =>
        Ret (Some (length H), None)
            {| heap := H ++ [cloned (config s) (Some n1) None];
               trace := T ++ [EvOpen dsn; EvOpen dsn]; next := S n1 |}
    | Some msg =>
        Ret (None, Some (ErrDriver msg))
            {| heap := H ++ [cloned (config s) None None];
               trace := T ++ [EvOpen dsn; EvOpen dsn]; next := n1 |}
    end.
Proof.
  intros Hself dsn n1. unfold clone.
  rewrite (bind_run _ _ _ _ _
             (deref_run self s {| heap := H; trace := T; next := n |} Hself)).
  unfold mbind, M_bind, alloc. simpl.
  rewrite Setup_last, Open_last. simpl. fold dsn.
  destruct (String.eqb dsn "") eqn:Hdsn.
  { rewrite Open_last. simpl. fold dsn. by rewrite Hdsn. }
  destruct (sql_Open T dsn) as [msg|]; rewrite Open_last; simpl; fold dsn;
    rewrite Hdsn; subst n1;
    destruct (sql_Open (T ++ [EvOpen dsn]) dsn);
    unfold cloned, set_session; simpl; by rewrite <- app_assoc.
Qed.

(** [Transaction], outcome by outcome. *)
Lemma Transaction_run self s H T n :
  H !! self = Some s ->
  let dsn := Database (config s) in
  let n1 := match sql_Open T dsn with None => S n | Some _ => n end in
  let T2 := T ++ [EvOpen dsn; EvOpen dsn] in
  Transaction self {| heap := H; trace := T; next := n |} =
  if String.eqb dsn "" then
    Ret (None, Some ErrMissingDatabaseName)
        {| heap := H ++ [cloned (config s) None None]; trace := T; next := n |}
  else
    match sql_Open (T ++ [EvOpen dsn]) dsn with
    | Some msg =>
        Ret (None, Some (ErrDriver msg))
            {| heap := H ++ [cloned (config s) None None];
               trace := T2; next := n1 |}
    | None =>
        match db_Begin T2 n1 with
        | Some msg =>
            Ret (None, Some (ErrDriver msg))
                {| heap := H ++ [cloned (config s) (Some n1) None];
                   trace := T2 ++ [EvBegin n1]; next := S n1 |}
        | None =>
            Ret (Some {| Tx_Source := length H |}, None)
                {| heap := H ++ [cloned (config s) (Some n1) (Some (S n1))];
                   trace := T2 ++ [EvBegin n1]; next := S (S n1) |}
        end
    end.
Proof.
  intros Hself dsn n1 T2. unfold Transaction.
  unfold mbind at 1, M_bind at 1. rewrite (clone_run self s) by done.
  fold dsn n1. destruct (String.eqb dsn ""); [reflexivity|].
  destruct (sql_Open (T ++ [EvOpen dsn]) dsn) as [msg|]; [reflexivity|].
  fold T2. unfold mbind at 1, M_bind at 1. rewrite deref_last.
  unfold cloned at 1. cbn [session].
  unfold mbind at 1, M_bind at 1. rewrite dbBegin_run. cbn [trace].
  destruct (db_Begin T2 n1) as [msg|]; [reflexivity|].
  unfold after. cbn [heap trace next]. unfold mbind, M_bind.
  rewrite deref_last, store_last. reflexivity.
Qed.

Ltac error_case :=
  eexists _, _; split; [reflexivity|]; split; [cbn [heap]; by auto | exact I].

Lemma Transaction_runs_on_a_clone_aux self s w :
  heap w !! self = Some s ->
  exists r w',
    Transaction self w = Ret r w' /\
    (forall l s0, heap w !! l = Some s0 -> heap w' !! l = Some s0) /\
    match r with
    | (Some t, None) =>
        Tx_Source t = length (heap w) /\ Tx_Source t <> self /\
        exists db sqlTx,
          next w <= db /\ db < sqlTx /\ sqlTx < next w' /\
          heap w' !! Tx_Source t
          = Some (cloned (config s) (Some db) (Some sqlTx)) /\
          trace w' = trace w ++ [EvOpen (Database (config s));
                                 EvOpen (Database (config s)); EvBegin db]
    | (None, Some _) => True
    | _ => False
    end.
Proof.
  intros Hself. set (dsn := Database (config s)).
  destruct w as [H T n]. simpl in Hself.
  assert (length H <> self) as Hfresh.
  { apply lookup_lt_Some in Hself. lia. }
  assert (forall x l s0, H !! l = Some s0 -> (H ++ [x]) !! l = Some s0) as Hframe.
  { intros x l s0 Hl. by apply lookup_app_l_Some. }
  rewrite (Transaction_run self s) by done. fold dsn. cbn [heap trace next].
  destruct (String.eqb dsn ""); [error_case|].
  destruct (sql_Open (T ++ [EvOpen dsn]) dsn) as [msg|]; [error_case|].
  destruct (db_Begin _ _) as [msg|]; [error_case|].
  eexists _, _. split; [reflexivity|]. cbn [heap trace next Tx_Source].
  split; [by auto|]. split; [done|]. split; [done|].
  eexists _, _. split; [|split; [|split; [|split]]].
  4: by apply list_lookup_middle.
  4: by rewrite <- app_assoc.
  all: destruct (sql_Open T dsn); lia.
Qed.

(** C8. [clone] builds a new session, at a new address, with the
    settings of the original, a connection handle opened for it and no
    transaction. [Transaction] begins a transaction on that
    connection, records it in the clone and returns a handle bound to
    the clone. Every session that existed before, the original among
    them, is left as it was. The last two parts give the outcome of
    both calls in full: they fail only on an empty database name, on
    the second [sql.Open], or, for [Transaction], on [Begin]. *)
Theorem Transaction_runs_on_a_clone self s w :
  heap w !! self = Some s ->
  let dsn := Database (config s) in
  (exists r w1,
     clone self w = Ret r w1 /\
     (forall l s0, heap w !! l = Some s0 -> heap w1 !! l = Some s0) /\
     match r with
     | (Some c, None) =>
         c = length (heap w) /\ c <> self /\
         exists db,
           next w <= db < next w1 /\
           heap w1 !! c = Some (cloned (config s) (Some db) None) /\
           trace w1 = trace w ++ [EvOpen dsn; EvOpen dsn]
     | (None, Some _) => True
     | _ => False
     end) /\
  (exists r w',
     Transaction self w = Ret r w' /\
     (forall l s0, heap w !! l = Some s0 -> heap w' !! l = Some s0) /\
     match r with
     | (Some t, None) =>
         Tx_Source t = length (heap w) /\ Tx_Source t <> self /\
         exists db sqlTx,
           next w <= db /\ db < sqlTx /\ sqlTx < next w' /\
           heap w' !! Tx_Source t
           = Some (cloned (config s) (Some db) (Some sqlTx)) /\
           trace w' = trace w ++ [EvOpen dsn; EvOpen dsn; EvBegin db]
     | (None, Some _) => True
     | _ => False
     end) /\
  let db := match sql_Open (trace w) dsn with None => S (next w) | Some _ => next w end in
  let opened := trace w ++ [EvOpen dsn; EvOpen dsn] in
  clone self w =
    (if String.eqb dsn "" then
       Ret (None, Some ErrMissingDatabaseName)
           {| heap := heap w ++ [cloned (config s) None None];
              trace := trace w; next := next w |}
     else
       match sql_Open (trace w ++ [EvOpen dsn]) dsn with
       | None =>
           Ret (Some (length (heap w)), None)
               {| heap := heap w ++ [cloned (config s) (Some db) None];
                  trace := opened; next := S db |}
       | Some msg =>
           Ret (None, Some (ErrDriver msg))
               {| heap := heap w ++ [cloned (config s) None None];
                  trace := opened; next := db |}
       end) /\
  Transaction self w =
    (if String.eqb dsn "" then
       Ret (None, Some ErrMissingDatabaseName)
           {| heap := heap w ++ [cloned (config s) None None];
              trace := trace w; next := next w |}
     else
       match sql_Open (trace w ++ [EvOpen dsn]) dsn with
       | Some msg =>
           Ret (None, Some (ErrDriver msg))
               {| heap := heap w ++ [cloned (config s) None None];
                  trace := opened; next := db |}
       | None =>
           match db_Begin opened db with
           | Some msg =>
               Ret (None, Some (ErrDriver msg))
                   {| heap := heap w ++ [cloned (config s) (Some db) None];
                      trace := opened ++ [EvBegin db]; next := S db |}
           | None =>
               Ret (Some {| Tx_Source := length (heap w) |}, None)
                   {| heap := heap w ++ [cloned (config s) (Some db) (Some (S db))];
                      trace := opened ++ [EvBegin db]; next := S (S db) |}
           end
       end).
Proof.
  intros Hself dsn. destruct w as [H T n]. simpl in Hself.
  assert (length H <> self) as Hfresh.
  { apply lookup_lt_Some in Hself. lia. }
  assert (forall x l s0, H !! l = Some s0 -> (H ++ [x]) !! l = Some s0) as Hframe.
  { intros x l s0 Hl. by apply lookup_app_l_Some. }
  split; [|split; [|split]].
  - rewrite (clone_run self s) by done. fold dsn. cbn [heap trace next].
    destruct (String.eqb dsn ""); [error_case|].
    destruct (sql_Open (T ++ [EvOpen dsn]) dsn) as [msg|]; [error_case|].
    eexists _, _. split; [reflexivity|]. cbn [heap trace next].
    split; [by auto|]. split; [done|]. split; [done|].
    eexists. split; [|split; [by apply list_lookup_middle | done]].
    destruct (sql_Open T dsn); lia.
  - by apply Transaction_runs_on_a_clone_aux.
  - by rewrite (clone_run self s).
  - by rewrite (Transaction_run self s).
Qed.

(** After [Transaction], statements on the original still run in
    their own implicit transaction, and statements on the clone run
    on the transaction of the clone. *)
Lemma Transaction_then_doExec self s db0 t w w' stmt args :
  heap w !! self = Some s ->
  session s = Some db0 ->
  tx s = None ->
  Transaction self w = Ret (Some t, None) w' ->
  let query := renumber (Compile stmt) (length args) in
  let w0 := after w' (debug_report (trace w') query args) 0 in
  (exists r k,
     doExec self stmt args w' = Ret r (after w0 (EvBegin db0 :: k) 0) \/
     doExec self stmt args w' = Ret r (after w0 (EvBegin db0 :: k) 1)) /\
  (exists r sqlTx,
     doExec (Tx_Source t) stmt args w'
     = Ret r (after w0 [EvExec sqlTx query args] 0)).
Proof.
  intros Hself Hsession Htx Ht query w0.
  destruct (Transaction_runs_on_a_clone_aux self s w Hself)
    as (r & w'' & Ht' & Hframe & Hr).
  rewrite Ht in Ht'. injection Ht' as <- <-.
  destruct Hr as (_ & _ & db & sqlTx & _ & _ & _ & Hclone & _).
  split.
  - rewrite (doExec_autocommit_run self s db0) by auto.
    fold query w0.
    destruct (db_Begin _ _); [by eexists _, _; left|].
    destruct (tx_Exec _ _ _ _); [|by eexists _, _; right].
    destruct (tx_Commit _ _); by eexists _, _; right.
  - rewrite (doExec_explicit_transaction _ _ db sqlTx _ _ _ Hclone) by done.
    by eexists _, _.
Qed.

End Sessions.

(** * The properties on the concrete engine *)

Module Runs.
Import Sample.

(** The scenario of the table [t(id int, name string)]. *)
Example Collection_t :
  Collection (C:=healthy_t) 0 ["t"] connected
  = Ret (Some handle_t, None)
        (after connected
           [ EvBegin 0;
             EvQuery 1 "SELECT Name FROM __Table WHERE Name == $1" [VStr "t"];
             EvCommit 1; EvNext 2; EvRowsClose 2;
             EvBegin 0;
             EvQuery 3 "SELECT Name, Type FROM __Column WHERE TableName == $1"
                     [VStr "t"];
             EvCommit 3 ] 4).
Proof. vm_compute. reflexivity. Qed.

(** The scenario of the missing table: one catalog query, no more. *)
Example Collection_missing_table :
  Collection (C:=healthy_t) 0 ["missing_table"] connected
  = Ret (None, Some ErrCollectionDoesNotExists)
        (after connected
           [ EvBegin 0;
             EvQuery 1 "SELECT Name FROM __Table WHERE Name == $1"
                     [VStr "missing_table"];
             EvCommit 1; EvNext 2; EvRowsClose 2 ] 2).
Proof. vm_compute. reflexivity. Qed.

(** A name with a modifier: the queries are bound to the first token,
    the handle keeps the whole name. *)
Example Collection_with_modifier :
  Collection (C:=healthy_t) 0 ["t AS people"] connected
  = Ret (Some {| source := 0; names := ["t AS people"]; PrimaryKey := "id";
                 ColumnTypes := ColumnTypes handle_t |}, None)
        (after connected
           [ EvBegin 0;
             EvQuery 1 "SELECT Name FROM __Table WHERE Name == $1" [VStr "t"];
             EvCommit 1; EvNext 2; EvRowsClose 2;
             EvBegin 0;
             EvQuery 3 "SELECT Name, Type FROM __Column WHERE TableName == $1"
                     [VStr "t"];
             EvCommit 3 ] 4).
Proof. vm_compute. reflexivity. Qed.

(** A catalog in upper case gives the same map. *)
Example Collection_upper_case_run :
  ColumnTypes handle_t = Some (<["name" := reflect.String]> (<["id" := reflect.Int]> ∅)) /\
  Collection (C:=engine cat_upper healthy) 0 ["t"] connected
  = Ret (Some handle_t, None)
        (after connected
           [ EvBegin 0;
             EvQuery 1 "SELECT Name FROM __Table WHERE Name == $1" [VStr "t"];
             EvCommit 1; EvNext 2; EvRowsClose 2;
             EvBegin 0;
             EvQuery 3 "SELECT Name, Type FROM __Column WHERE TableName == $1"
                     [VStr "t"];
             EvCommit 3 ] 4).
Proof. split; [reflexivity | vm_compute; reflexivity]. Defined.

(** A failed column query is reported as it is. *)
Example Collection_metadata_failure :
  Collection (C:=engine cat_t no_columns) 0 ["t"] connected
  = Ret (None, Some (ErrDriver "table __Column is locked"))
        (after connected
           [ EvBegin 0;
             EvQuery 1 "SELECT Name FROM __Table WHERE Name == $1" [VStr "t"];
             EvCommit 1; EvNext 2; EvRowsClose 2;
             EvBegin 0;
             EvQuery 3 "SELECT Name, Type FROM __Column WHERE TableName == $1"
                     [VStr "t"] ] 3).
Proof. vm_compute. reflexivity. Qed.

(** Inside an explicit transaction the statement goes to that
    transaction, and nothing is begun or committed around it. *)
Example doExec_in_transaction :
  doExec (C:=healthy_t) 0 insertStmt [VInt 1; VStr "a"] in_transaction
  = Ret (Some {| LastInsertId := 0; RowsAffected := 1 |}, None)
        (after in_transaction
           [EvExec 1 "INSERT INTO t (id, name) VALUES ($1, $2)" [VInt 1; VStr "a"]] 0).
Proof. vm_compute. reflexivity. Qed.

(** The listing of the scenario still shows [t]. *)
Example Collections_t :
  Collections (C:=healthy_t) 0 connected
  = Ret (["t"], None)
        (after connected
           [ EvBegin 0; EvQuery 1 "SELECT Name FROM __Table" []; EvCommit 1;
             EvNext 2; EvNext 2; EvRowsClose 2 ] 2).
Proof. vm_compute. reflexivity. Qed.

(** C1 as stated fails: the table [t] is in the catalog and the
    existence query fails because the connection is lost, [doQuery]
    says so, and [tableExists] reports the table as missing, as it
    does for a table that is not in a healthy catalog. *)
Lemma failed_existence_query_reported_as_missing :
  doQuery (C:=engine cat_t broken) 0 existsStmt [VStr "t"] connected
  = Ret (None, Some (ErrDriver "connection lost")) (after connected [EvBegin 0] 0) /\
  tableExists (C:=engine cat_t broken) 0 ["t"] connected
  = Ret (Some ErrCollectionDoesNotExists) (after connected [EvBegin 0] 0) /\
  tableExists (C:=engine [] healthy) 0 ["t"] connected
  = Ret (Some ErrCollectionDoesNotExists)
        (after connected
           [ EvBegin 0;
             EvQuery 1 "SELECT Name FROM __Table WHERE Name == $1" [VStr "t"];
             EvCommit 1; EvNext 2; EvRowsClose 2 ] 2) /\
  tableExists (C:=healthy_t) 0 ["t"] unconnected
  = Ret (Some ErrCollectionDoesNotExists) unconnected.
Proof. repeat split; vm_compute; reflexivity. Qed.

Lemma tableExists_reports_only_missing_witness :
  heap connected !! 0 = Some session0 /\
  exists r w',
    tableExists (C:=engine [] healthy) 0 ["missing"] connected = Ret r w' /\
    (r = None \/ r = Some ErrCollectionDoesNotExists).
Proof.
  split; [reflexivity|].
  exact (proj1 (tableExists_reports_only_missing (C:=engine [] healthy)
                  0 session0 ["missing"] "missing" connected eq_refl)).
Defined.

Lemma doExec_implicit_transaction_witness :
  heap connected !! 0 = Some session0 /\
  session session0 = Some 0 /\
  tx session0 = None /\
  doExec (C:=healthy_t) 0 insertStmt [VInt 1; VStr "a"] connected
  = Ret (Some {| LastInsertId := 0; RowsAffected := 1 |}, None)
        (after connected
           [ EvBegin 0;
             EvExec 1 "INSERT INTO t (id, name) VALUES ($1, $2)" [VInt 1; VStr "a"];
             EvCommit 1 ] 1).
Proof.
  split; [reflexivity|]. split; [reflexivity|]. split; [reflexivity|].
  exact (doExec_implicit_transaction (C:=healthy_t) 0 session0 0 insertStmt
           [VInt 1; VStr "a"] connected eq_refl eq_refl eq_refl).
Defined.

Lemma placeholders_renumbered_in_order_witness :
  let segs := ["INSERT INTO t (id, name) VALUES ("; ", "; ")"] in
  let args := [VInt 1; VStr "a"] in
  Compile (Collaborators:=healthy_t) insertStmt = with_placeholders segs /\
  length segs = S (length args) /\
  Forall (fun s => count_char "?" s = 0) segs /\
  Forall plain segs /\
  renumber (Compile (Collaborators:=healthy_t) insertStmt) (length args)
  = "INSERT INTO t (id, name) VALUES ($1, $2)" /\
  param_tokens "INSERT INTO t (id, name) VALUES ($1, $2)" = ["1"; "2"].
Proof.
  intros segs args.
  assert (Forall (fun s => count_char "?" s = 0) segs) as Hq
    by (repeat constructor).
  assert (Forall plain segs) as Hplain by (repeat constructor).
  pose proof (placeholders_renumbered_in_order (C:=healthy_t) insertStmt args segs
                eq_refl eq_refl Hq) as (Hsent & _ & _ & Htokens).
  split; [reflexivity|]. split; [reflexivity|]. split; [exact Hq|].
  split; [exact Hplain|]. split; [exact Hsent | exact (Htokens Hplain)].
Defined.

Lemma not_connected_fails_without_io_witness :
  heap unconnected !! 0 = Some zeroSource /\
  session zeroSource = None /\
  doExec (C:=healthy_t) 0 insertStmt [VInt 1; VStr "a"] unconnected
  = Ret (None, Some ErrNotConnected) unconnected /\
  doQuery (C:=healthy_t) 0 insertStmt [VInt 1; VStr "a"] unconnected
  = Ret (None, Some ErrNotConnected) unconnected /\
  doQueryRow (C:=healthy_t) 0 insertStmt [VInt 1; VStr "a"] unconnected
  = Ret (None, Some ErrNotConnected) unconnected.
Proof.
  split; [reflexivity|]. split; [reflexivity|].
  exact (not_connected_fails_without_io (C:=healthy_t) 0 zeroSource insertStmt
           [VInt 1; VStr "a"] unconnected eq_refl eq_refl).
Defined.

Lemma unknown_types_resolve_to_string_witness :
  let id := {| ColumnName := "ID"; DataType := "INT64" |} in
  let note := {| ColumnName := "Note"; DataType := "varchar" |} in
  assoc "varchar" type_table = None /\
  guess_kind "varchar" = reflect.String /\
  ("id" ∉ ((fun c' => ToLower (Collaborators:=healthy_t) (ColumnName c')) <$> [note])) /\
  column_types (C:=healthy_t) [id; note] !! "id" = Some reflect.Int64 /\
  ("note" ∉ ((fun c' => ToLower (Collaborators:=healthy_t) (ColumnName c')) <$> [])) /\
  column_types (C:=healthy_t) [id; note] !! "note" = Some reflect.String.
Proof.
  intros id note.
  pose proof (unknown_types_resolve_to_string (C:=healthy_t))
    as (_ & Hunknown & _ & _ & _ & _ & _ & _ & Hlast & _).
  assert ("id" ∉ ((fun c' => ToLower (Collaborators:=healthy_t) (ColumnName c'))
                    <$> [note])) as Hid.
  { intros Hin. apply list_elem_of_singleton in Hin. discriminate Hin. }
  assert ("note" ∉ ((fun c' => ToLower (Collaborators:=healthy_t) (ColumnName c'))
                      <$> [])) as Hnote by apply not_elem_of_nil.
  split; [reflexivity|]. split; [exact (Hunknown "varchar" eq_refl)|].
  split; [exact Hid|]. split; [exact (Hlast [] id [note] Hid)|].
  split; [exact Hnote | exact (Hlast [id] note [] Hnote)].
Defined.

(** Resolution of a table with a 64-bit column and a column of a type
    the table does not list. *)
Example Collection_unknown_type :
  exists w',
    Collection (C:=engine [("u", [("ID", "INT64"); ("Note", "varchar")])] healthy)
               0 ["u"] connected
    = Ret (Some {| source := 0; names := ["u"]; PrimaryKey := "id";
                   ColumnTypes := Some (<["note" := reflect.String]>
                                          (<["id" := reflect.Int64]> ∅)) |}, None) w'.
Proof. eexists. vm_compute. reflexivity. Qed.

Lemma ColumnTypes_keys_are_lowercased_witness :
  heap connected !! 0 = Some session0 /\
  exists col w',
    Collection (C:=engine cat_upper healthy) 0 ["t"] connected
    = Ret (Some col, None) w' /\
    exists dst rows cols,
      FetchRows (Collaborators:=engine cat_upper healthy) dst rows = (cols, None) /\
      ColumnTypes col = Some (column_types (C:=engine cat_upper healthy) cols).
Proof.
  split; [reflexivity|].
  pose proof (proj2 Collection_upper_case_run) as Hrun.
  destruct (ColumnTypes_keys_are_lowercased (C:=engine cat_upper healthy)
              0 session0 ["t"] connected _ _ eq_refl Hrun)
    as (dst & rows & cols & Hfetch & Htypes & _).
  eexists _, _. split; [exact Hrun|]. by exists dst, rows, cols.
Defined.

Lemma Collection_uses_first_token_witness :
  heap connected !! 0 = Some session0 /\
  exists r evs k,
    Collection (C:=healthy_t) 0 ["t AS people"] connected
    = Ret r (after connected evs k) /\
    Forall (binds_only (first_token <$> ["t AS people"])) evs /\
    (forall col, r.1 = Some col -> names col = ["t AS people"]).
Proof.
  split; [reflexivity|].
  exact (proj2 (Collection_uses_first_token (C:=healthy_t)
                  0 session0 ["t AS people"] connected eq_refl)).
Defined.

Lemma Transaction_runs_on_a_clone_witness :
  heap connected !! 0 = Some session0 /\
  clone (C:=healthy_t) 0 connected
  = Ret (Some 1, None)
        {| heap := [session0; cloned settings (Some 2) None];
           trace := [EvOpen "test.db"; EvOpen "test.db"]; next := 3 |} /\
  Transaction (C:=healthy_t) 0 connected
  = Ret (Some {| Tx_Source := 1 |}, None)
        {| heap := [session0; cloned settings (Some 2) (Some 3)];
           trace := [EvOpen "test.db"; EvOpen "test.db"; EvBegin 2];
           next := 4 |} /\
  exists r w',
    Transaction (C:=healthy_t) 0 connected = Ret r w' /\
    (forall l s0, heap connected !! l = Some s0 -> heap w' !! l = Some s0) /\
    match r with
    | (Some t, None) =>
        Tx_Source t = length (heap connected) /\ Tx_Source t <> 0 /\
        exists db sqlTx,
          next connected <= db /\ db < sqlTx /\ sqlTx < next w' /\
          heap w' !! Tx_Source t
          = Some (cloned (config session0) (Some db) (Some sqlTx)) /\
          trace w' = trace connected
                     ++ [EvOpen "test.db"; EvOpen "test.db"; EvBegin db]
    | (None, Some _) => True
    | _ => False
    end.
Proof.
  pose proof (Transaction_runs_on_a_clone (C:=healthy_t) 0 session0 connected eq_refl)
    as (_ & Hframe & Hclone & Htx).
  split; [reflexivity|]. split; [exact Hclone|]. split; [exact Htx | exact Hframe].
Defined.

(** The transaction of the scenario: the clone lives at address 1 on
    the connection 2, inside the transaction 3; the original is as it
    was. *)
Example Transaction_connected :
  Transaction (C:=healthy_t) 0 connected
  = Ret (Some {| Tx_Source := 1 |}, None)
        {| heap := [session0; cloned settings (Some 2) (Some 3)];
           trace := [EvOpen "test.db"; EvOpen "test.db"; EvBegin 2];
           next := 4 |}.
Proof. vm_compute. reflexivity. Qed.

Lemma doQueryRow_never_reports_statement_error_witness :
  heap connected !! 0 = Some session0 /\
  session session0 = Some 0 /\
  tx session0 = None /\
  doQueryRow (C:=healthy_t) 0 existsStmt [VStr "missing"] connected
  = Ret (Some {| row_err := Some "no rows in result set"; row_data := [] |}, None)
        (after connected
           [ EvBegin 0;
             EvQueryRow 1 "SELECT Name FROM __Table WHERE Name == $1" [VStr "missing"];
             EvCommit 1 ] 1).
Proof.
  split; [reflexivity|]. split; [reflexivity|]. split; [reflexivity|].
  exact (doQueryRow_never_reports_statement_error (C:=healthy_t) 0 session0 0
           existsStmt [VStr "missing"] connected eq_refl eq_refl eq_refl).
Defined.

Lemma Collections_discards_scan_errors_witness :
  let data := [[VStr "a"]; [VNil]; [VStr "b"]; [VInt 3]] in
  let rows := {| rows_id := 2; rows_data := data |} in
  let w1 := after connected
              [EvBegin 0; EvQuery 1 "SELECT Name FROM __Table" []; EvCommit 1] 2 in
  doQuery (C:=scripted data) 0 tablesStmt [] connected = Ret (Some rows, None) w1 /\
  Collections (C:=scripted data) 0 connected
  = Ret (["a"; "a"; "b"; "b"], None)
        (after w1 [EvNext 2; EvNext 2; EvNext 2; EvNext 2; EvNext 2; EvRowsClose 2] 0).
Proof.
  intros data rows w1.
  assert (doQuery (C:=scripted data) 0 tablesStmt [] connected
          = Ret (Some rows, None) w1) as Hq by reflexivity.
  split; [exact Hq|].
  exact (proj1 (Collections_discards_scan_errors (C:=scripted data)
                  0 connected rows w1 Hq)).
Defined.

End Runs.

(** * Further properties of the adapter *)

(** ** Placeholders and arguments that do not match in number *)

Section PartialRenumbering.

Lemma Replace1_absent s new :
  count_char "?" s = 0 -> Replace1 s "?" new = s.
Proof.
  induction s as [|a s IH]; intros Hs; [reflexivity|].
  apply count_char_cons_0 in Hs as [Hne Hs]. simpl.
  destruct (Ascii.eqb_spec "?" a) as [Heq|_]; [by destruct Hne|].
  f_equal. exact (IH Hs).
Qed.

Lemma renumber_loop_absent k : forall i s,
  count_char "?" s = 0 -> renumber_loop k i s = s.
Proof.
  induction k as [|k IH]; intros i s Hs; [reflexivity|].
  cbn [renumber_loop]. rewrite Replace1_absent by done. by apply IH.
Qed.

Lemma renumber_loop_first segs : forall n i pre,
  Forall (fun s => count_char "?" s = 0) segs ->
  count_char "?" pre = 0 ->
  renumber_loop n i (pre +:+ with_placeholders segs)
  = pre +:+ with_first_params n i segs.
Proof.
  induction segs as [|s rest IH]; intros n i pre Hsegs Hpre.
  - simpl. apply renumber_loop_absent. rewrite count_char_app. simpl. lia.
  - apply Forall_cons in Hsegs as [Hs Hrest]. destruct rest as [|s' rest].
    + simpl. apply renumber_loop_absent. rewrite count_char_app. lia.
    + destruct n as [|n]; [reflexivity|].
      rewrite with_placeholders_cons.
      change (with_first_params (S n) i (s :: s' :: rest))
        with (s +:+ Sprintf_dollar (i + 1) +:+ with_first_params n (i + 1) (s' :: rest)).
      cbn [renumber_loop].
      rewrite <- (append_assoc pre s), Replace1_first
        by (rewrite count_char_app; lia).
      rewrite <- (append_assoc (pre +:+ s)).
      rewrite IH; [by rewrite !append_assoc | exact Hrest |].
      rewrite !count_char_app, Sprintf_dollar_no_qmark. lia.
Qed.

Lemma with_placeholders_count segs :
  Forall (fun s => count_char "?" s = 0) segs ->
  count_char "?" (with_placeholders segs) = length segs - 1.
Proof.
  induction segs as [|s rest IH]; intros Hsegs; [reflexivity|].
  apply Forall_cons in Hsegs as [Hs Hrest]. destruct rest as [|s' rest].
  - simpl. lia.
  - rewrite with_placeholders_cons, !count_char_app, IH by done.
    simpl. rewrite Hs. lia.
Qed.

Lemma with_first_params_count segs : forall n i,
  Forall (fun s => count_char "?" s = 0) segs ->
  count_char "?" (with_first_params n i segs) = length segs - 1 - n.
Proof.
  induction segs as [|s rest IH]; intros n i Hsegs; [reflexivity|].
  pose proof Hsegs as [Hs Hrest]%Forall_cons. destruct rest as [|s' rest].
  - simpl. lia.
  - destruct n as [|n].
    + change (with_first_params 0 i (s :: s' :: rest))
        with (with_placeholders (s :: s' :: rest)).
      rewrite with_placeholders_count by done. lia.
    + change (with_first_params (S n) i (s :: s' :: rest))
        with (s +:+ Sprintf_dollar (i + 1) +:+ with_first_params n (i + 1) (s' :: rest)).
      rewrite !count_char_app, Sprintf_dollar_no_qmark, IH by done.
      simpl. lia.
Qed.

Lemma with_first_params_all segs : forall n i,
  length segs <= S n -> with_first_params n i segs = with_params i segs.
Proof.
  induction segs as [|s rest IH]; intros n i Hlen; [reflexivity|].
  destruct rest as [|s' rest]; [reflexivity|].
  destruct n as [|n]; [simpl in Hlen; lia|].
  change (with_first_params (S n) i (s :: s' :: rest))
    with (s +:+ Sprintf_dollar (i + 1) +:+ with_first_params n (i + 1) (s' :: rest)).
  rewrite with_params_cons, IH; [done | simpl in *; lia].
Qed.

(** X1. The renumbering loop with [n] arguments on a text cut at its
    [?]: the first [n] placeholders are numbered from 1, the others stay
    [?]; arguments beyond the placeholders change nothing. *)
Theorem renumber_numbers_first_placeholders segs n :
  Forall (fun s => count_char "?" s = 0) segs ->
  let sent := renumber (with_placeholders segs) n in
  sent = with_first_params n 0 segs /\
  count_char "?" sent = length segs - 1 - n /\
  (length segs <= S n -> sent = with_params 0 segs).
Proof.
  intros Hsegs sent.
  assert (sent = with_first_params n 0 segs) as Hsent.
  { unfold sent, renumber. by apply (renumber_loop_first segs n 0 ""). }
  split; [exact Hsent|]. split.
  - rewrite Hsent. by apply with_first_params_count.
  - intros Hlen. rewrite Hsent. by apply with_first_params_all.
Qed.

End PartialRenumbering.

(** ** The three primitives, in both modes *)

Section Modes.
Context `{C : Collaborators}.

(** [doQueryRow], in both modes. *)
Lemma doQueryRow_run self s db stmt args w :
  heap w !! self = Some s ->
  session s = Some db ->
  let query := renumber (Compile stmt) (length args) in
  let w0 := after w (debug_report (trace w) query args) 0 in
  doQueryRow self stmt args w =
  match tx s with
  | Some t =>
      Ret (Some (tx_QueryRow (trace w0) t query args), None)
          (after w0 [EvQueryRow t query args] 0)
  | None =>
      let t := next w in
      match db_Begin (trace w0) db with
      | Some msg => Ret (None, Some (ErrDriver msg)) (after w0 [EvBegin db] 0)
      | None =>
          Ret match tx_Commit (trace w0 ++ [EvBegin db; EvQueryRow t query args]) t with
              | Some msg => (None, Some (ErrDriver msg))
              | None => (Some (tx_QueryRow (trace w0 ++ [EvBegin db]) t query args), None)
              end
              (after w0 [EvBegin db; EvQueryRow t query args; EvCommit t] 1)
      end
  end.
Proof.
  intros Hself Hsession query w0.
  unfold doQueryRow.
  rewrite (bind_run _ _ _ _ _ (deref_run _ _ _ Hself)), Hsession.
  rewrite (bind_run _ _ _ _ _ (compile_query_run stmt args w)).
  fold query w0. destruct (tx s) as [t|].
  - unfold mbind, M_bind. by rewrite txQueryRow_run.
  - unfold mbind, M_bind. rewrite dbBegin_run.
    destruct (db_Begin (trace w0) db) as [msg|]; [reflexivity|].
    rewrite txQueryRow_run, txCommit_run.
    replace (trace (after (after w0 [EvBegin db] 1)
                      [EvQueryRow (next w0) query args] 0))
      with (trace w0 ++ [EvBegin db; EvQueryRow (next w) query args]) by same_world.
    change (next w0) with (next w).
    destruct (tx_Commit _ (next w)) as [msg|]; run; f_equal; same_world.
Qed.

(** X2. [doQuery] on an open session without an explicit transaction:
    the query runs between a [Begin] and a [Commit] of its own; a failed
    [Begin] or query ends the call with that error and no commit; the
    cursor comes back only when the commit succeeds, and a failed commit
    returns the commit error in its place, the cursor left unclosed. *)
Theorem doQuery_implicit_transaction self s db stmt args w :
  heap w !! self = Some s ->
  session s = Some db ->
  tx s = None ->
  let query := renumber (Compile stmt) (length args) in
  let w0 := after w (debug_report (trace w) query args) 0 in
  let t := next w in
  doQuery self stmt args w =
  match db_Begin (trace w0) db with
  | Some msg => Ret (None, Some (ErrDriver msg)) (after w0 [EvBegin db] 0)
  | None =>
      match tx_Query (trace w0 ++ [EvBegin db]) t query args with
      | inr msg =>
          Ret (None, Some (ErrDriver msg))
              (after w0 [EvBegin db; EvQuery t query args] 1)
      | inl data =>
          match tx_Commit (trace w0 ++ [EvBegin db; EvQuery t query args]) t with
          | Some msg =>
              Ret (None, Some (ErrDriver msg))
                  (after w0 [EvBegin db; EvQuery t query args; EvCommit t] 2)
          | None =>
              Ret (Some {| rows_id := S t; rows_data := data |}, None)
                  (after w0 [EvBegin db; EvQuery t query args; EvCommit t] 2)
          end
      end
  end.
Proof.
  intros Hself Hsession Htx query w0 t.
  rewrite (doQuery_run self s db) by done. by rewrite Htx.
Qed.

(** X3. On a session inside an explicit transaction each primitive
    sends its statement on that transaction and does nothing else: no
    [Begin], no [Commit]. [doExec] and [doQuery] hand back the driver's
    answer; [doQueryRow] always returns its row with a nil error. *)
Theorem explicit_transaction_is_used_directly self s db t stmt args w :
  heap w !! self = Some s ->
  session s = Some db ->
  tx s = Some t ->
  let query := renumber (Compile stmt) (length args) in
  let w0 := after w (debug_report (trace w) query args) 0 in
  doExec self stmt args w =
    Ret match tx_Exec (trace w0) t query args with
        | inl res => (Some res, None)
        | inr msg => (None, Some (ErrDriver msg))
        end
        (after w0 [EvExec t query args] 0) /\
  doQuery self stmt args w =
    match tx_Query (trace w0) t query args with
    | inl data =>
        Ret (Some {| rows_id := next w; rows_data := data |}, None)
            (after w0 [EvQuery t query args] 1)
    | inr msg =>
        Ret (None, Some (ErrDriver msg)) (after w0 [EvQuery t query args] 0)
    end /\
  doQueryRow self stmt args w =
    Ret (Some (tx_QueryRow (trace w0) t query args), None)
        (after w0 [EvQueryRow t query args] 0).
Proof.
  intros Hself Hsession Htx query w0. split; [|split].
  - rewrite (doExec_explicit_transaction self s db t) by done.
    fold query w0. by destruct (tx_Exec _ _ _ _).
  - rewrite (doQuery_run self s db) by done. by rewrite Htx.
  - rewrite (doQueryRow_run self s db) by done. by rewrite Htx.
Qed.

Lemma doExec_shape self s stmt args w :
  heap w !! self = Some s ->
  exists r evs k,
    doExec self stmt args w = Ret r (after w evs k) /\ well_shaped (session s) r.
Proof.
  intros Hself. destruct (session s) as [db|] eqn:Hsession.
  - destruct (tx s) as [t|] eqn:Htx.
    + rewrite (doExec_explicit_transaction self s db t) by done.
      rewrite after_after. eexists _, _, _. split; [reflexivity|].
      by destruct (tx_Exec _ _ _ _).
    + rewrite (doExec_autocommit_run self s db) by done. cbn zeta.
      destruct (db_Begin _ _); [|destruct (tx_Exec _ _ _ _);
        [destruct (tx_Commit _ _)|]];
        rewrite after_after; by eexists _, _, _.
  - destruct (primitives_not_connected self s stmt args w) as (-> & _); [done..|].
    exists (None, Some ErrNotConnected), [], 0. by rewrite after_nil.
Qed.

Lemma doQuery_shape self s stmt args w :
  heap w !! self = Some s ->
  exists r evs k,
    doQuery self stmt args w = Ret r (after w evs k) /\ well_shaped (session s) r.
Proof.
  intros Hself. destruct (session s) as [db|] eqn:Hsession.
  - rewrite (doQuery_run self s db) by done. cbn zeta.
    destruct (tx s) as [t|].
    + destruct (tx_Query _ _ _ _); rewrite after_after; by eexists _, _, _.
    + destruct (db_Begin _ _); [|destruct (tx_Query _ _ _ _);
        [destruct (tx_Commit _ _)|]];
        rewrite after_after; by eexists _, _, _.
  - destruct (primitives_not_connected self s stmt args w) as (_ & -> & _); [done..|].
    exists (None, Some ErrNotConnected), [], 0. by rewrite after_nil.
Qed.

Lemma doQueryRow_shape self s stmt args w :
  heap w !! self = Some s ->
  exists r evs k,
    doQueryRow self stmt args w = Ret r (after w evs k) /\ well_shaped (session s) r.
Proof.
  intros Hself. destruct (session s) as [db|] eqn:Hsession.
  - rewrite (doQueryRow_run self s db) by done. cbn zeta.
    destruct (tx s) as [t|].
    + rewrite after_after. by eexists _, _, _.
    + destruct (db_Begin _ _); [|destruct (tx_Commit _ _)];
        rewrite after_after; by eexists _, _, _.
  - destruct (primitives_not_connected self s stmt args w) as (_ & _ & ->); [done..|].
    exists (None, Some ErrNotConnected), [], 0. by rewrite after_nil.
Qed.

(** X4. On a valid session pointer the three primitives always return:
    a value or an error, never both and never neither; the error is
    [ErrNotConnected] exactly when the session has no connection and an
    error of the driver otherwise. They change no session object and
    only add to the record of driver requests. *)
Theorem primitives_return_value_or_error self s stmt args w :
  heap w !! self = Some s ->
  (exists r evs k,
     doExec self stmt args w = Ret r (after w evs k) /\ well_shaped (session s) r) /\
  (exists r evs k,
     doQuery self stmt args w = Ret r (after w evs k) /\ well_shaped (session s) r) /\
  (exists r evs k,
     doQueryRow self stmt args w = Ret r (after w evs k) /\ well_shaped (session s) r).
Proof.
  intros Hself. split; [|split].
  - by apply doExec_shape.
  - by apply doQuery_shape.
  - by apply doQueryRow_shape.
Qed.

End Modes.

(** ** Opening, re-opening and renaming a session *)

Section Opening.
Context `{C : Collaborators}.

Lemma store_run l x s w :
  heap w !! l = Some s ->
  store l x w = Ret tt {| heap := <[l := x]> (heap w); trace := trace w; next := next w |}.
Proof. intros H. unfold store. by rewrite H. Qed.

Lemma lookup_stored (H : list Source) l x s :
  H !! l = Some s -> <[l := x]> H !! l = Some x.
Proof. intros Hl. apply list_lookup_insert_eq. by apply lookup_lt_Some in Hl. Qed.

(** [Open] on any session: the object after the call, [s'], differs
    from the one before in its connection handle at most. *)
Lemma Open_spec self s w :
  heap w !! self = Some s ->
  let dsn := Database (config s) in
  exists err s' w',
    Open self w = Ret err w' /\
    heap w' = <[self := s']> (heap w) /\
    config s' = config s /\ collections s' = collections s /\ tx s' = tx s /\
    match err with
    | None =>
        dsn <> "" /\ session s' = Some (next w) /\
        trace w' = trace w ++ [EvOpen dsn] /\ next w' = S (next w)
    | Some ErrMissingDatabaseName =>
        dsn = "" /\ s' = s /\ trace w' = trace w /\ next w' = next w
    | Some (ErrDriver _) =>
        dsn <> "" /\ session s' = None /\
        trace w' = trace w ++ [EvOpen dsn] /\ next w' = next w
    | Some _ => False
    end.
Proof.
  intros Hself dsn. unfold Open.
  rewrite (bind_run _ _ _ _ _ (deref_run _ _ _ Hself)). fold dsn.
  destruct (String.eqb_spec dsn "") as [Hdsn|Hdsn].
  - exists (Some ErrMissingDatabaseName), s, w. split; [done|].
    split; [by rewrite list_insert_id|]. done.
  - unfold sqlOpen. run.
    destruct (sql_Open (trace w) dsn) as [msg|]; simpl;
      (rewrite (store_run _ _ s) by done); eexists _, _, _;
      (split; [reflexivity|]); simpl; done.
Qed.

(** X5. [Open] on a session: with an empty database name it fails with
    [ErrMissingDatabaseName] and touches nothing, the connection the
    session had included; otherwise it asks the driver once, and the
    session's connection handle becomes the new handle on success and
    nil on failure, whatever it was before. No other field and no other
    session changes. *)
Theorem Open_replaces_the_connection self s w :
  heap w !! self = Some s ->
  let dsn := Database (config s) in
  exists err w',
    Open self w = Ret err w' /\
    (forall l, l <> self -> heap w' !! l = heap w !! l) /\
    match err with
    | None =>
        dsn <> "" /\ heap w' !! self = Some (set_session s (Some (next w))) /\
        trace w' = trace w ++ [EvOpen dsn]
    | Some ErrMissingDatabaseName => dsn = "" /\ w' = w
    | Some (ErrDriver _) =>
        dsn <> "" /\ heap w' !! self = Some (set_session s None) /\
        trace w' = trace w ++ [EvOpen dsn]
    | Some _ => False
    end.
Proof.
  intros Hself dsn. unfold Open.
  rewrite (bind_run _ _ _ _ _ (deref_run _ _ _ Hself)). fold dsn.
  destruct (String.eqb_spec dsn "") as [Hdsn|Hdsn].
  - by exists (Some ErrMissingDatabaseName), w.
  - unfold sqlOpen. run.
    destruct (sql_Open (trace w) dsn) as [msg|]; simpl;
      (rewrite (store_run _ _ s) by done); eexists _, _;
      (split; [reflexivity|]); simpl;
      (split; [by intros l Hl; rewrite list_lookup_insert_ne|]);
      (split; [done|]); (split; [by eapply lookup_stored | done]).
Qed.

(** X6. What [Open] returns decides what the primitives see next: after
    a driver error every primitive fails with [ErrNotConnected] and does
    no I/O, also on a session that was connected before the call; after
    a nil error none of them returns [ErrNotConnected]. *)
Theorem Open_decides_connectedness self s w err w' stmt args :
  heap w !! self = Some s ->
  Open self w = Ret err w' ->
  match err with
  | Some (ErrDriver _) =>
      doExec self stmt args w' = Ret (None, Some ErrNotConnected) w' /\
      doQuery self stmt args w' = Ret (None, Some ErrNotConnected) w' /\
      doQueryRow self stmt args w' = Ret (None, Some ErrNotConnected) w'
  | None =>
      (exists r evs k, doExec self stmt args w' = Ret r (after w' evs k) /\
                       r.2 <> Some ErrNotConnected) /\
      (exists r evs k, doQuery self stmt args w' = Ret r (after w' evs k) /\
                       r.2 <> Some ErrNotConnected) /\
      (exists r evs k, doQueryRow self stmt args w' = Ret r (after w' evs k) /\
                       r.2 <> Some ErrNotConnected)
  | Some _ => w' = w
  end.
Proof.
  intros Hself Hopen.
  destruct (Open_spec self s w Hself)
    as (err0 & s' & w0 & Hrun & Hheap & _ & _ & _ & Herr).
  rewrite Hopen in Hrun. injection Hrun as <- <-.
  assert (heap w' !! self = Some s') as Hself'.
  { rewrite Hheap. by eapply lookup_stored. }
  destruct err as [[| | | |msg]|]; try done.
  - destruct Herr as (_ & -> & Htrace & Hnext). destruct w, w'. simpl in *.
    rewrite list_insert_id in Hheap by done. by subst.
  - destruct Herr as (_ & Hsession & _).
    by apply (primitives_not_connected self s').
  - destruct Herr as (_ & Hsession & _).
    assert (forall A (r : option A * option error),
              well_shaped (session s') r -> r.2 <> Some ErrNotConnected) as Hshape.
    { intros A [[a|] [[| | | |msg]|]]; simpl; try done. by rewrite Hsession. }
    split; [|split].
    + destruct (doExec_shape self s' stmt args w' Hself') as (r & evs & k & ? & ?).
      exists r, evs, k. eauto.
    + destruct (doQuery_shape self s' stmt args w' Hself') as (r & evs & k & ? & ?).
      exists r, evs, k. eauto.
    + destruct (doQueryRow_shape self s' stmt args w' Hself') as (r & evs & k & ? & ?).
      exists r, evs, k. eauto.
Qed.

(** X7. After [Use], [Name] returns the database name that was given,
    whether or not the connection could be opened. With the empty name
    [Use] fails with [ErrMissingDatabaseName] without I/O and the
    session keeps the connection handle it had. *)
Theorem Use_then_Name self s database w :
  heap w !! self = Some s ->
  exists err s' w',
    Use self database w = Ret err w' /\
    heap w' !! self = Some s' /\
    Name self w' = Ret database w' /\
    tx s' = tx s /\ collections s' = collections s /\
    (database = "" ->
       err = Some ErrMissingDatabaseName /\ session s' = session s /\
       trace w' = trace w).
Proof.
  intros Hself. unfold Use.
  rewrite (bind_run _ _ _ _ _ (deref_run _ _ _ Hself)).
  unfold mbind at 1, M_bind at 1. rewrite (store_run _ _ s) by done.
  set (s1 := {| config := _; session := session s |}).
  set (w1 := {| heap := <[self := s1]> (heap w) |}).
  assert (heap w1 !! self = Some s1) as Hself1 by by eapply lookup_stored.
  destruct (Open_spec self s1 w1 Hself1)
    as (err & s' & w' & -> & Hheap & Hconfig & Hcoll & Htx & Herr).
  assert (heap w' !! self = Some s') as Hself'.
  { rewrite Hheap. by eapply lookup_stored. }
  exists err, s', w'. split; [done|]. split; [done|]. split; [|split; [|split]].
  - unfold Name. rewrite (bind_run _ _ _ _ _ (deref_run _ _ _ Hself')).
    by rewrite Hconfig.
  - by rewrite Htx.
  - by rewrite Hcoll.
  - intros ->. destruct err as [[| | | |msg]|]; try done;
      simpl in Herr; try (by destruct Herr as [? _]).
    destruct Herr as (_ & -> & Htrace & _). done.
Qed.

(** [Open] on any session, outcome by outcome. *)
Lemma Open_run self s w :
  heap w !! self = Some s ->
  let dsn := Database (config s) in
  Open self w =
  if String.eqb dsn "" then Ret (Some ErrMissingDatabaseName) w
  else
    match sql_Open (trace w) dsn with
    | None =>
        Ret None {| heap := <[self := set_session s (Some (next w))]> (heap w);
                    trace := trace w ++ [EvOpen dsn]; next := S (next w) |}
    | Some msg =>
        Ret (Some (ErrDriver msg))
            {| heap := <[self := set_session s None]> (heap w);
               trace := trace w ++ [EvOpen dsn]; next := next w |}
    end.
Proof.
  intros Hself dsn. unfold Open.
  rewrite (bind_run _ _ _ _ _ (deref_run _ _ _ Hself)). fold dsn.
  destruct (String.eqb dsn ""); [reflexivity|].
  unfold sqlOpen. run.
  destruct (sql_Open (trace w) dsn) as [msg|]; simpl;
    by rewrite (store_run _ _ s).
Qed.

(** X8. [Setup] stores the settings, gives the session a new empty
    collection map, and returns what [Open] returns on the session so
    changed: with an empty database name it fails with
    [ErrMissingDatabaseName], asks nothing of the driver and keeps the
    connection the session had; otherwise it calls [sql.Open] once and
    the connection becomes the new handle or nil. It does not touch the
    transaction field. *)
Theorem Setup_stores_settings self s config0 w :
  heap w !! self = Some s ->
  (exists err s' w',
     Setup self config0 w = Ret err w' /\
     heap w' !! self = Some s' /\
     config s' = config0 /\ collections s' = Some ∅ /\ tx s' = tx s /\
     match err with
     | None => session s' = Some (next w)
     | Some ErrMissingDatabaseName =>
         Database config0 = "" /\ session s' = session s /\ trace w' = trace w
     | Some (ErrDriver _) => session s' = None
     | Some _ => False
     end) /\
  let dsn := Database config0 in
  let stored db := {| config := config0; session := db;
                      collections := Some ∅; tx := tx s |} in
  Setup self config0 w =
    (if String.eqb dsn "" then
       Ret (Some ErrMissingDatabaseName)
           {| heap := <[self := stored (session s)]> (heap w);
              trace := trace w; next := next w |}
     else
       match sql_Open (trace w) dsn with
       | None =>
           Ret None {| heap := <[self := stored (Some (next w))]> (heap w);
                       trace := trace w ++ [EvOpen dsn]; next := S (next w) |}
       | Some msg =>
           Ret (Some (ErrDriver msg))
               {| heap := <[self := stored None]> (heap w);
                  trace := trace w ++ [EvOpen dsn]; next := next w |}
       end).
Proof.
  intros Hself. unfold Setup.
  rewrite (bind_run _ _ _ _ _ (deref_run _ _ _ Hself)).
  unfold mbind, M_bind. rewrite (store_run _ _ s) by done.
  set (s1 := {| config := config0; session := session s |}).
  set (w1 := {| heap := <[self := s1]> (heap w) |}).
  assert (heap w1 !! self = Some s1) as Hself1 by by eapply lookup_stored.
  split.
  - destruct (Open_spec self s1 w1 Hself1)
      as (err & s' & w' & -> & Hheap & Hconfig & Hcoll & Htx & Herr).
    exists err, s', w'. split; [done|].
    split; [rewrite Hheap; by eapply lookup_stored|].
    split; [done|]. split; [done|]. split; [done|].
    destruct err as [[| | | |msg]|]; try done; simpl in Herr.
    + by destruct Herr as (? & -> & ? & _).
    + by destruct Herr as (_ & ? & _).
    + by destruct Herr as (_ & ? & _).
  - cbv zeta. rewrite (Open_run self s1 w1 Hself1). simpl.
    destruct (String.eqb (Database config0) ""); [reflexivity|].
    destruct (sql_Open (trace w) (Database config0)) as [msg|];
      by rewrite list_insert_insert_eq.
Qed.

(** X9. [Transaction] reads nothing of the original but its settings:
    on a session that is not connected, or whose own transaction is
    running, and whatever the driver answered to the first of the two
    [sql.Open] calls, it succeeds as soon as the database name is not
    empty and the second [sql.Open] and the [Begin] succeed. *)
Theorem Transaction_needs_only_the_settings self s w :
  heap w !! self = Some s ->
  let dsn := Database (config s) in
  let db := match sql_Open (trace w) dsn with None => S (next w) | Some _ => next w end in
  dsn <> "" ->
  sql_Open (trace w ++ [EvOpen dsn]) dsn = None ->
  db_Begin (trace w ++ [EvOpen dsn; EvOpen dsn]) db = None ->
  Transaction self w
  = Ret (Some {| Tx_Source := length (heap w) |}, None)
        {| heap := heap w ++ [cloned (config s) (Some db) (Some (S db))];
           trace := trace w ++ [EvOpen dsn; EvOpen dsn; EvBegin db];
           next := S (S db) |}.
Proof.
  intros Hself dsn db Hdsn Hopen Hbegin. subst dsn db.
  destruct w as [H T n]. simpl in *.
  rewrite (Transaction_run self s) by done. cbv zeta.
  apply String.eqb_neq in Hdsn. rewrite Hdsn, Hopen.
  unfold handle in *. rewrite Hbegin.
  by rewrite <- app_assoc.
Qed.

(** X10. On a session whose settings carry no database name [clone] and
    [Transaction] fail with [ErrMissingDatabaseName] before any driver
    call, also when the session itself is connected. *)
Theorem Transaction_without_database_name self s w :
  heap w !! self = Some s ->
  Database (config s) = "" ->
  let w' := {| heap := heap w ++ [cloned (config s) None None];
               trace := trace w; next := next w |} in
  clone self w = Ret (None, Some ErrMissingDatabaseName) w' /\
  Transaction self w = Ret (None, Some ErrMissingDatabaseName) w'.
Proof.
  intros Hself Hdsn w'. destruct w as [H T n]. simpl in *.
  rewrite (clone_run self s), (Transaction_run self s) by done.
  by rewrite Hdsn.
Qed.

End Opening.

(** ** Cursors and queries of the catalog functions *)

Section Cursors.
Context `{C : Collaborators}.

Lemma emit_run ev w : emit ev w = Ret tt (after w [ev] 0).
Proof. reflexivity. Qed.

Lemma reads_app evs evs' : reads (evs ++ evs') = reads evs ++ reads evs'.
Proof. apply flat_map_app. Qed.

Lemma closes_app evs evs' : closes (evs ++ evs') = closes evs ++ closes evs'.
Proof. apply flat_map_app. Qed.

Lemma query_args_app evs evs' :
  query_args (evs ++ evs') = query_args evs ++ query_args evs'.
Proof. apply flat_map_app. Qed.

Lemma debug_report_quiet h query args :
  reads (debug_report h query args) = [] /\
  closes (debug_report h query args) = [] /\
  query_args (debug_report h query args) = [].
Proof. unfold debug_report. by destruct (String.eqb _ _). Qed.

(** What [doQuery] adds to the trace: no cursor is advanced or closed,
    at most one query is sent, as compiled and renumbered and with the
    arguments given, and exactly one when a cursor comes back. *)
Lemma doQuery_events self s stmt args w :
  heap w !! self = Some s ->
  exists r evs k,
    doQuery self stmt args w = Ret r (after w evs k) /\
    well_shaped (session s) r /\
    reads evs = [] /\ closes evs = [] /\
    (query_args evs = [] \/ query_args evs = [args]) /\
    (is_Some r.1 -> query_args evs = [args]) /\
    (session s = None -> evs = [] /\ k = 0) /\
    Forall (fun ev => match ev with
                      | EvQuery _ query args' =>
                          query = renumber (Compile stmt) (length args) /\ args' = args
                      | EvDebug _ _ | EvBegin _ | EvCommit _ => True
                      | _ => False
                      end) evs.
Proof.
  intros Hself. destruct (session s) as [db|] eqn:Hsession.
  - rewrite (doQuery_run self s db) by done. cbn zeta.
    set (query := renumber (Compile stmt) (length args)).
    pose proof (debug_report_quiet (trace w) query args) as (Hr & Hc & Hq).
    assert (Forall (fun ev => match ev with
                      | EvQuery _ query' args' => query' = query /\ args' = args
                      | EvDebug _ _ | EvBegin _ | EvCommit _ => True
                      | _ => False
                      end) (debug_report (trace w) query args)) as Hdbg.
    { unfold debug_report. destruct (String.eqb _ _); by repeat constructor. }
    destruct (tx s) as [t|].
    + destruct (tx_Query _ _ _ _); rewrite after_after; eexists _, _, _;
        (split; [reflexivity|]); (split; [done|]);
        rewrite reads_app, closes_app, query_args_app, Hr, Hc, Hq; simpl;
        repeat split; auto; try (by intros [? [=]]); try done;
        apply Forall_app; split; [done| |done|]; by repeat constructor.
    + destruct (db_Begin _ _); [|destruct (tx_Query _ _ _ _);
        [destruct (tx_Commit _ _)|]];
        rewrite after_after; eexists _, _, _;
        (split; [reflexivity|]); (split; [done|]);
        rewrite reads_app, closes_app, query_args_app, Hr, Hc, Hq; simpl;
        repeat split; auto; try (by intros [? [=]]); try done;
        (apply Forall_app; split; [done|]); by repeat constructor.
  - destruct (primitives_not_connected self s stmt args w) as (_ & -> & _); [done..|].
    exists (None, Some ErrNotConnected), [], 0. rewrite after_nil.
    repeat split; auto; try done. by intros [? [=]].
Qed.

(** X11. [Drop] compiles the drop-database statement of the configured
    name and hands it to [doQuery] without arguments, so the text goes
    out as compiled; it returns the error of [doQuery], whatever it is,
    and nothing of the cursor, which it neither reads nor closes. On a
    session that is not connected it fails with [ErrNotConnected]
    without I/O. *)
Theorem Drop_sends_one_statement self s w :
  heap w !! self = Some s ->
  (exists err evs k,
     Drop self w = Ret err (after w evs k) /\
     Forall (fun ev => match ev with
                       | EvQuery _ query args =>
                           query = Compile (dropStmt (Database (config s))) /\ args = []
                       | EvDebug _ _ | EvBegin _ | EvCommit _ => True
                       | _ => False
                       end) evs /\
     length (query_args evs) <= 1 /\
     match err with
     | None => session s <> None /\ query_args evs = [[]]
     | Some ErrNotConnected => session s = None /\ evs = []
     | Some (ErrDriver _) => session s <> None
     | Some _ => False
     end) /\
  Drop self w =
    match doQuery self (dropStmt (Database (config s))) [] w with
    | Ret (_, err) w' => Ret err w'
    | Panic => Panic
    end /\
  (forall db, session s = Some db -> tx s = None ->
     let query := Compile (dropStmt (Database (config s))) in
     let w0 := after w (debug_report (trace w) query []) 0 in
     let t := next w in
     Drop self w =
     match db_Begin (trace w0) db with
     | Some msg => Ret (Some (ErrDriver msg)) (after w0 [EvBegin db] 0)
     | None =>
         match tx_Query (trace w0 ++ [EvBegin db]) t query [] with
         | inr msg =>
             Ret (Some (ErrDriver msg)) (after w0 [EvBegin db; EvQuery t query []] 1)
         | inl _ =>
             Ret match tx_Commit (trace w0 ++ [EvBegin db; EvQuery t query []]) t with
                 | Some msg => Some (ErrDriver msg)
                 | None => None
                 end
                 (after w0 [EvBegin db; EvQuery t query []; EvCommit t] 2)
         end
     end).
Proof.
  intros Hself.
  assert (Drop self w =
          match doQuery self (dropStmt (Database (config s))) [] w with
          | Ret (_, err) w' => Ret err w'
          | Panic => Panic
          end) as Hdrop.
  { unfold Drop. rewrite (bind_run _ _ _ _ _ (deref_run _ _ _ Hself)).
    unfold mbind, M_bind.
    by destruct (doQuery self (dropStmt (Database (config s))) [] w) as [[rows err] w'|]. }
  split; [|split; [exact Hdrop|]].
  - rewrite Hdrop.
    destruct (doQuery_events self s (dropStmt (Database (config s))) [] w Hself)
      as (r & evs & k & -> & Hshape & _ & _ & Hq & Hsome & Hnone & Hevs).
    destruct r as [rows err].
    exists err, evs, k. split; [done|]. split; [exact Hevs|]. split.
    { destruct Hq as [-> | ->]; simpl; lia. }
    destruct rows as [rows|], err as [[| | | |msg]|]; simpl in *; try done.
    + split; [done|]. by apply Hsome.
    + split; [done|]. by apply Hnone.
  - intros db Hsession Htx query w0 t. rewrite Hdrop.
    rewrite (doQuery_run self s db) by done. rewrite Htx. cbn zeta.
    change (renumber (Compile (dropStmt (Database (config s)))) (length []))
      with query. fold w0 t.
    destruct (db_Begin (trace w0) db); [reflexivity|].
    destruct (tx_Query _ t query []); [|reflexivity].
    by destruct (tx_Commit _ t).
Qed.

(** X12. [Collections] on a valid session pointer always returns. With
    a nil error the cursor was advanced once per entry and once more,
    and closed exactly once. With an error the list is nil and no
    cursor was advanced or closed; the error is [ErrNotConnected], and
    nothing was asked of the driver, exactly when the session has no
    connection. *)
Theorem Collections_closes_its_cursor self s w :
  heap w !! self = Some s ->
  exists out err evs k,
    Collections self w = Ret (out, err) (after w evs k) /\
    match err with
    | None =>
        session s <> None /\ query_args evs = [[]] /\
        length (reads evs) = S (length out) /\
        exists rows, closes evs = [rows] /\ reads evs = replicate (S (length out)) rows
    | Some ErrNotConnected => session s = None /\ out = [] /\ evs = []
    | Some (ErrDriver _) =>
        session s <> None /\ out = [] /\ reads evs = [] /\ closes evs = []
    | Some _ => False
    end.
Proof.
  intros Hself. unfold Collections.
  destruct (doQuery_events self s tablesStmt [] w Hself)
    as (r & evs & k & Hrun & Hshape & Hr & Hc & _ & Hsome & Hnone & _).
  rewrite (bind_run _ _ _ _ _ Hrun).
  destruct r as [[rows|] [[| | | |msg]|]]; simpl in Hshape; try done.
  - unfold mbind, M_bind. rewrite Collections_loop_run.
    unfold rowsClose. rewrite emit_run. unfold mret, M_ret. rewrite !after_after.
    eexists _, _, _, _. split; [reflexivity|]. cbv iota.
    assert (forall n r, reads (replicate n (EvNext r)) = replicate n r /\
                        closes (replicate n (EvNext r)) = [] /\
                        query_args (replicate n (EvNext r)) = []) as Hrep.
    { induction n as [|n IH]; intros r; [done|]. simpl.
      destruct (IH r) as (-> & -> & ->). done. }
    destruct (Hrep (S (length (rows_data rows))) (rows_id rows)) as (Hr' & Hc' & Hq').
    rewrite !reads_app, !closes_app, !query_args_app, Hr, Hc, Hr', Hc', Hq'.
    rewrite Hsome by by eexists.
    simpl. rewrite scanned_length, ?app_nil_r.
    split; [done|]. split; [done|].
    split; [simpl; by rewrite length_replicate|]. by eexists.
  - destruct (Hnone Hshape) as [-> ->]. run.
    exists [], (Some ErrNotConnected), [], 0. done.
  - run. exists [], (Some (ErrDriver msg)), evs, k. done.
Qed.

End Cursors.

(** ** Existence checks and the resolution of several names *)

Section Resolution.
Context `{C : Collaborators}.

(** The loop of [tableExists] with the cursors already deferred. *)
Lemma tableExists_loop_events self s names0 : forall deferred w,
  heap w !! self = Some s ->
  exists r evs k,
    tableExists_loop self names0 deferred w = Ret r (after w evs k) /\
    closes evs = reverse (reads evs) ++ (rows_id <$> deferred) /\
    length (reads evs) <= length names0 /\
    query_args evs `prefix_of` ((fun name => [VStr name]) <$> names0) /\
    (r = None -> query_args evs = (fun name => [VStr name]) <$> names0) /\
    (session s = None -> names0 <> [] ->
       r = Some ErrCollectionDoesNotExists /\ reads evs = [] /\ query_args evs = []).
Proof.
  assert (forall deferred : list Rows,
            reads ((fun rows => EvRowsClose (rows_id rows)) <$> deferred) = [] /\
            closes ((fun rows => EvRowsClose (rows_id rows)) <$> deferred)
              = rows_id <$> deferred /\
            query_args ((fun rows => EvRowsClose (rows_id rows)) <$> deferred) = [])
    as Hdeferred.
  { induction deferred as [|rows older (IH1 & IH2 & IH3)]; [done|].
    split; [exact IH1|]. split; [|exact IH3].
    change (rows_id rows :: closes ((fun rows => EvRowsClose (rows_id rows)) <$> older)
            = rows_id rows :: (rows_id <$> older)).
    by rewrite IH2. }
  induction names0 as [|name rest IH]; intros deferred w Hself.
  - cbn [tableExists_loop]. unfold mbind, M_bind. rewrite run_deferred_run.
    destruct (Hdeferred deferred) as (Hr & Hc & Hq).
    eexists _, _, _. split; [reflexivity|]. rewrite Hr, Hc, Hq. by repeat split.
  - destruct (doQuery_events self s existsStmt [VStr name] w Hself)
      as (r & evs & k & Hrun & Hshape & Hr & Hc & Hq & Hsome & Hnone & _).
    cbn [tableExists_loop]. rewrite (bind_run _ _ _ _ _ Hrun).
    destruct r as [rows [err|]].
    + unfold mbind, M_bind. rewrite run_deferred_run.
      destruct (Hdeferred deferred) as (Hr' & Hc' & Hq').
      unfold mret, M_ret. rewrite !after_after.
      eexists _, _, _. split; [reflexivity|].
      rewrite reads_app, closes_app, query_args_app, Hr, Hc, Hr', Hc', Hq', !app_nil_r.
      split; [done|]. split; [simpl; lia|]. split; [|split; [done|]].
      * destruct Hq as [-> | ->]; [apply prefix_nil|].
        apply prefix_cons, prefix_nil.
      * intros Hsession _. destruct (Hnone Hsession) as [Hevs _].
        by rewrite Hevs.
    + destruct rows as [rows|]; [|done].
      assert (query_args evs = [[VStr name]]) as Hqa by (apply Hsome; by eexists).
      unfold mbind at 1, M_bind at 1. rewrite rowsNext_run.
      destruct (rows_data rows) as [|row more].
      * unfold mbind, M_bind. rewrite run_deferred_run.
        destruct (Hdeferred (rows :: deferred)) as (Hr' & Hc' & Hq').
        unfold mret, M_ret. rewrite !after_after.
        eexists _, _, _. split; [reflexivity|].
        rewrite !reads_app, !closes_app, !query_args_app, Hr, Hc, Hr', Hc', Hq', Hqa.
        simpl. split; [done|]. split; [lia|]. split; [|split; [done|]].
        -- apply prefix_cons, prefix_nil.
        -- intros Hsession. by destruct Hshape.
      * destruct (IH (rows :: deferred)
                     (after (after w evs k) [EvNext (rows_id rows)] 0))
          as (r' & evs' & k' & -> & Hc' & Hlen' & Hq' & Hnone' & _); [done|].
        rewrite !after_after. eexists _, _, _. split; [reflexivity|].
        rewrite !reads_app, !closes_app, !query_args_app, Hr, Hc, Hc', Hqa.
        simpl. rewrite reverse_cons, <- app_assoc.
        split; [done|]. split; [lia|]. split; [|split].
        -- by apply prefix_cons.
        -- intros Hnil. by rewrite Hnone'.
        -- intros Hsession. by destruct Hshape.
Qed.

Lemma cursor_events_app evs evs' :
  cursor_events (evs ++ evs') = cursor_events evs ++ cursor_events evs'.
Proof. apply flat_map_app. Qed.

Lemma cursor_events_reads evs :
  reads (cursor_events evs) = reads evs /\ closes (cursor_events evs) = closes evs.
Proof.
  induction evs as [|ev evs [IHr IHc]]; [done|].
  destruct ev; simpl; try done.
  - split; [by f_equal | done].
  - split; [done | by f_equal].
Qed.

Lemma cursor_events_nexts_closes (ids ids' : list handle) :
  reads ((EvNext <$> ids) ++ (EvRowsClose <$> ids')) = ids /\
  closes ((EvNext <$> ids) ++ (EvRowsClose <$> ids')) = ids'.
Proof.
  rewrite reads_app, closes_app.
  assert (forall l : list handle,
            reads (EvNext <$> l) = l /\ closes (EvNext <$> l) = [] /\
            reads (EvRowsClose <$> l) = [] /\ closes (EvRowsClose <$> l) = l) as H.
  { induction l as [|i l (IH1 & IH2 & IH3 & IH4)]; [done|].
    repeat split; simpl; try done; by f_equal. }
  destruct (H ids) as (-> & -> & _). destruct (H ids') as (_ & _ & -> & ->).
  by rewrite app_nil_r.
Qed.

Lemma cursor_events_deferred (deferred : list Rows) :
  cursor_events ((fun rows => EvRowsClose (rows_id rows)) <$> deferred)
  = EvRowsClose <$> (rows_id <$> deferred).
Proof. induction deferred as [|rows older IH]; [done|]. simpl. by f_equal. Qed.

(** [doQuery] touches no cursor, and the cursor it returns is new. *)
Lemma doQuery_cursor self s stmt args w :
  heap w !! self = Some s ->
  exists r evs k,
    doQuery self stmt args w = Ret r (after w evs k) /\
    cursor_events evs = [] /\
    match r with
    | (Some rows, None) => next w <= rows_id rows < k + next w
    | (None, Some _) => True
    | _ => False
    end.
Proof.
  intros Hself. destruct (session s) as [db|] eqn:Hsession.
  - rewrite (doQuery_run self s db) by done. cbn zeta.
    set (query := renumber (Compile stmt) (length args)).
    assert (cursor_events (debug_report (trace w) query args) = []) as Hdbg.
    { unfold debug_report. by destruct (String.eqb _ _). }
    destruct (tx s) as [t|].
    + destruct (tx_Query _ _ _ _); rewrite after_after; eexists _, _, _;
        (split; [reflexivity|]); rewrite cursor_events_app, Hdbg;
        (split; [reflexivity|]); simpl; lia.
    + destruct (db_Begin _ _); [|destruct (tx_Query _ _ _ _);
        [destruct (tx_Commit _ _)|]];
        rewrite after_after; eexists _, _, _;
        (split; [reflexivity|]); rewrite cursor_events_app, Hdbg;
        (split; [reflexivity|]); simpl; lia.
  - destruct (primitives_not_connected self s stmt args w) as (_ & -> & _); [done..|].
    exists (None, Some ErrNotConnected), [], 0. by rewrite after_nil.
Qed.

(** The cursor events of the loop of [tableExists]: first one [Next]
    for each of the new cursors [ids], in the order they were opened;
    then their closes, last cursor first, and the closes of the cursors
    that were deferred before. The new cursors are pairwise different. *)
Lemma tableExists_loop_cursors self s names0 : forall deferred w,
  heap w !! self = Some s ->
  exists r evs k ids,
    tableExists_loop self names0 deferred w = Ret r (after w evs k) /\
    cursor_events evs
    = (EvNext <$> ids) ++ (EvRowsClose <$> (reverse ids ++ (rows_id <$> deferred))) /\
    NoDup ids /\
    Forall (fun i => next w <= i < k + next w) ids /\
    length ids <= length names0.
Proof.
  induction names0 as [|name rest IH]; intros deferred w Hself.
  - cbn [tableExists_loop]. unfold mbind, M_bind. rewrite run_deferred_run.
    eexists _, _, _, []. split; [reflexivity|].
    rewrite cursor_events_deferred. split; [done|].
    split; [constructor|]. split; [constructor | done].
  - destruct (doQuery_cursor self s existsStmt [VStr name] w Hself)
      as (r & evs & k & Hrun & Hev & Hr).
    cbn [tableExists_loop]. rewrite (bind_run _ _ _ _ _ Hrun).
    destruct r as [[rows|] [err|]]; try done.
    + unfold mbind at 1, M_bind at 1. rewrite rowsNext_run.
      destruct (rows_data rows) as [|row more].
      * unfold mbind, M_bind. rewrite run_deferred_run.
        unfold mret, M_ret. rewrite !after_after.
        eexists _, _, _, [rows_id rows]. split; [reflexivity|].
        rewrite !cursor_events_app, Hev, cursor_events_deferred.
        split; [done|]. split; [apply NoDup_singleton|].
        split; [|simpl; lia]. apply Forall_singleton. lia.
      * destruct (IH (rows :: deferred)
                     (after (after w evs k) [EvNext (rows_id rows)] 0))
          as (r' & evs' & k' & ids' & -> & Hev' & Hnodup & Hbound & Hlen); [done|].
        rewrite !after_after.
        eexists _, _, _, (rows_id rows :: ids'). split; [reflexivity|].
        rewrite !cursor_events_app, Hev, Hev'. simpl in Hbound.
        split; [|split; [|split]].
        -- simpl. rewrite reverse_cons, <- !app_assoc. reflexivity.
        -- apply NoDup_cons. split; [|done].
           intros Hin. rewrite Forall_forall in Hbound.
           apply Hbound in Hin. lia.
        -- apply Forall_cons. split; [lia|].
           eapply Forall_impl; [exact Hbound|]. simpl. intros i Hi. lia.
        -- simpl. lia.
    + unfold mbind, M_bind. rewrite run_deferred_run.
      unfold mret, M_ret. rewrite !after_after.
      eexists _, _, _, []. split; [reflexivity|].
      rewrite cursor_events_app, Hev, cursor_events_deferred.
      split; [done|]. split; [constructor|]. split; [constructor | simpl; lia].
Qed.

(** X13. [tableExists] closes every cursor it has advanced, each once,
    the last one first, and after the last [Next]: its cursor events
    are one [Next] for each cursor opened, in that order, on pairwise
    different cursors, followed by one [Close] for each of them in the
    reverse order, and nothing else. It advances at most one cursor per
    name. *)
Theorem tableExists_closes_every_cursor self s names0 w :
  heap w !! self = Some s ->
  exists r evs k,
    tableExists self names0 w = Ret r (after w evs k) /\
    closes evs = reverse (reads evs) /\
    length (reads evs) <= length names0 /\
    NoDup (reads evs) /\
    cursor_events evs
    = (EvNext <$> reads evs) ++ (EvRowsClose <$> reverse (reads evs)).
Proof.
  intros Hself.
  destruct (tableExists_loop_cursors self s names0 [] w Hself)
    as (r & evs & k & ids & Hrun & Hev & Hnodup & _ & Hlen).
  exists r, evs, k. split; [exact Hrun|].
  simpl in Hev. rewrite app_nil_r in Hev.
  destruct (cursor_events_reads evs) as [Hreads Hcloses].
  destruct (cursor_events_nexts_closes ids (reverse ids)) as [Hr Hc].
  rewrite Hev in Hreads, Hcloses. rewrite Hr in Hreads. rewrite Hc in Hcloses.
  rewrite <- Hreads, <- Hcloses. by repeat split.
Qed.

Lemma tableExists_loop_fails_fast self names1 names2 : forall deferred w err w1,
  tableExists_loop self names1 deferred w = Ret (Some err) w1 ->
  tableExists_loop self (names1 ++ names2) deferred w = Ret (Some err) w1.
Proof.
  induction names1 as [|name rest IH]; intros deferred w err w1 Hrun.
  - cbn [tableExists_loop] in Hrun. unfold mbind, M_bind in Hrun.
    rewrite run_deferred_run in Hrun. discriminate Hrun.
  - rewrite <- app_comm_cons. cbn [tableExists_loop] in *.
    unfold mbind at 1, M_bind at 1. unfold mbind at 1, M_bind at 1 in Hrun.
    destruct (doQuery self existsStmt [VStr name] w) as [[rows [e|]] w2|];
      [exact Hrun| |done].
    destruct rows as [rows|]; [|done].
    unfold mbind at 1, M_bind at 1. unfold mbind at 1, M_bind at 1 in Hrun.
    rewrite rowsNext_run in *.
    destruct (rows_data rows) as [|row more]; [exact Hrun|]. by apply IH.
Qed.

(** X14. [tableExists] asks about the names in the order given, one
    query each, bound to the name, and stops at the first name it does
    not find: the queries sent are a prefix of the names, and all of
    them when the result is nil; and when it fails on some names it
    fails in the same way, after the same requests and no more, on
    those names followed by any others. For no names at all the result
    is nil and nothing is sent. *)
Theorem tableExists_queries_names_in_order self s names0 w :
  heap w !! self = Some s ->
  (exists r evs k,
     tableExists self names0 w = Ret r (after w evs k) /\
     query_args evs `prefix_of` ((fun name => [VStr name]) <$> names0) /\
     (r = None -> query_args evs = (fun name => [VStr name]) <$> names0) /\
     (names0 = [] -> r = None /\ evs = [])) /\
  (forall names2 err w1,
     tableExists self names0 w = Ret (Some err) w1 ->
     tableExists self (names0 ++ names2) w = Ret (Some err) w1).
Proof.
  intros Hself. split.
  - destruct (tableExists_loop_events self s names0 [] w Hself)
      as (r & evs & k & Hrun & _ & _ & Hq & Hnone & _).
    exists r, evs, k. split; [done|]. split; [done|]. split; [done|].
    intros ->. unfold tableExists in Hrun. cbn in Hrun.
    injection Hrun as <- Hw. split; [done|].
    apply (f_equal trace) in Hw. simpl in Hw.
    rewrite <- (app_nil_r (trace w)) in Hw at 1. by apply app_inv_head in Hw.
  - intros names2 err w1. apply tableExists_loop_fails_fast.
Qed.

(** X15. [Collection] on a session that is not connected: without names
    it fails with [ErrMissingCollectionName], with names it fails with
    [ErrCollectionDoesNotExists], the only error [tableExists] knows,
    not with [ErrNotConnected]. In both cases nothing is asked of the
    driver. *)
Theorem Collection_when_not_connected self s names0 w :
  heap w !! self = Some s ->
  session s = None ->
  Collection self names0 w =
  Ret (None, Some match names0 with
                  | [] => ErrMissingCollectionName
                  | _ :: _ => ErrCollectionDoesNotExists
                  end) w.
Proof.
  intros Hself Hsession. unfold Collection. destruct names0 as [|name rest]; [done|].
  change (length (name :: rest) =? 0) with false. cbv iota.
  unfold mbind, M_bind. rewrite Collection_loop_step, tableExists_single.
  destruct (primitives_not_connected self s existsStmt [VStr (first_token name)] w)
    as (_ & -> & _); done.
Qed.

Lemma Collection_loop_fails_fast self names1 names2 : forall cols types w r err w1,
  Collection_loop self names1 cols types w = Ret (r, Some err) w1 ->
  Collection_loop self (names1 ++ names2) cols types w = Ret (r, Some err) w1.
Proof.
  induction names1 as [|name rest IH]; intros cols types w r err w1; [done|].
  rewrite <- app_comm_cons, !Collection_loop_step.
  destruct (tableExists self [first_token name] w) as [[e|] w2|]; [done| |done].
  destruct (doQuery self columnsStmt [VStr (first_token name)] w2)
    as [[rows [e|]] w3|]; [by destruct rows| |done].
  destruct rows as [rows|]; [|done].
  destruct (FetchRows cols rows) as [cols' [e|]]; [done|]. apply IH.
Qed.

(** X16. Resolution stops at the first name that fails: when
    [Collection] fails on some names, it fails in the same way, after
    the same driver requests and no more, on those names followed by
    any others. *)
Theorem Collection_stops_at_first_failure self names1 names2 w err w1 :
  Collection self names1 w = Ret (None, Some err) w1 ->
  names1 <> [] ->
  Collection self (names1 ++ names2) w = Ret (None, Some err) w1.
Proof.
  unfold Collection. destruct names1 as [|name rest]; [done|]. intros Hrun _.
  change (length (name :: rest) =? 0) with false in Hrun.
  change (length ((name :: rest) ++ names2) =? 0) with false. cbv iota in *.
  unfold mbind, M_bind in *.
  destruct (Collection_loop self (name :: rest) [] None w)
    as [[types [e|]] w2|] eqn:Hloop; [|done..].
  injection Hrun as <- <-.
  by rewrite (Collection_loop_fails_fast _ _ names2 _ _ _ _ _ _ Hloop).
Qed.

(** X17. When two catalog rows have the same lower-cased name the later
    one decides the kind; so with pairwise different lower-cased names
    every column is stored under its lower-cased name with the kind of
    its own type, and the map has one key per row. *)
Theorem column_types_last_row_wins :
  (forall cols1 c cols2,
     column_key c ∉ column_key <$> cols2 ->
     column_types (cols1 ++ c :: cols2) !! column_key c = Some (column_kind c)) /\
  (forall cols,
     NoDup (column_key <$> cols) ->
     (forall c, c ∈ cols -> column_types cols !! column_key c = Some (column_kind c)) /\
     size (column_types cols) = length cols).
Proof.
  assert (forall cols1 c cols2,
            column_key c ∉ column_key <$> cols2 ->
            column_types (cols1 ++ c :: cols2) !! column_key c
            = Some (column_kind c)) as Hlast.
  { intros cols1 c cols2. induction cols2 as [|c2 cols2 IH] using rev_ind; intros Hc.
    - rewrite column_types_snoc. unfold set_column_type. simpl.
      fold (column_key c). rewrite lookup_insert_eq.
      unfold column_kind. by rewrite guess_kind_table.
    - rewrite fmap_app, not_elem_of_app in Hc. destruct Hc as [Hc Hc2].
      rewrite app_comm_cons, app_assoc, column_types_snoc.
      unfold set_column_type. simpl. fold (column_key c2).
      rewrite lookup_insert_ne; [by apply IH|].
      intros Heq. apply Hc2. rewrite <- Heq. by left. }
  split; [exact Hlast|]. intros cols Hnodup. split.
  - intros c (cols1 & cols2 & ->)%list_elem_of_split. apply Hlast.
    rewrite fmap_app, fmap_cons in Hnodup.
    apply NoDup_app in Hnodup as (_ & _ & Hnodup).
    by apply NoDup_cons in Hnodup as [? _].
  - induction cols as [|c cols IH] using rev_ind; [done|].
    rewrite fmap_app in Hnodup. apply NoDup_app in Hnodup as (Hnodup & Hfresh & _).
    rewrite column_types_snoc. unfold set_column_type. simpl.
    rewrite map_size_insert_None.
    + rewrite IH by done. rewrite length_app. simpl. lia.
    + apply eq_None_not_Some. rewrite column_types_keys.
      intros (c' & Hc' & Heq). apply (Hfresh (column_key c')).
      * by apply list_elem_of_fmap_2.
      * unfold column_key. rewrite <- Heq. by left.
Qed.

Lemma cut_space_parts s :
  match cut_space s with
  | Some (a, b) => s = a +:+ " " +:+ b /\ count_char " " a = 0
  | None => count_char " " s = 0
  end.
Proof.
  induction s as [|c s IH]; [reflexivity|]. cbn [cut_space].
  destruct (Ascii.eqb_spec c " ") as [->|Hne]; [done|].
  destruct (cut_space s) as [[a b]|].
  - destruct IH as [IHs IHa]. split.
    + rewrite IHs at 1. reflexivity.
    + by apply count_char_cons_0.
  - by apply count_char_cons_0.
Qed.

(** X18. The table identifier that [Collection] takes from a name
    carries no space; it is the whole name when the name has none, and
    otherwise the name is the identifier, one space, and a modifier,
    which may hold further spaces. *)
Theorem first_chunk_and_modifier name :
  exists tl,
    SplitN2 name = first_token name :: tl /\
    count_char " " (first_token name) = 0 /\
    (count_char " " name = 0 -> tl = [] /\ first_token name = name) /\
    match tl with
    | [] => name = first_token name
    | [modifier] => name = first_token name +:+ " " +:+ modifier
    | _ => False
    end.
Proof.
  unfold SplitN2.
  pose proof (cut_space_first_token name) as Htoken.
  pose proof (cut_space_parts name) as Hparts.
  destruct (cut_space name) as [[a b]|].
  - destruct Hparts as [Hname Ha]. subst a. exists [b].
    split; [done|]. split; [done|]. split; [|done].
    intros Hnone. rewrite Hname, !count_char_app in Hnone. simpl in Hnone. lia.
  - exists []. rewrite Htoken. by repeat split.
Qed.

End Resolution.

(** * The further properties on the concrete engine *)

Module MoreRuns.
Import Sample Sample2.

Lemma renumber_numbers_first_placeholders_witness :
  let segs := ["a == "; " AND b == "; ""] in
  Forall (fun s => count_char "?" s = 0) segs /\
  renumber "a == ? AND b == ?" 1 = "a == $1 AND b == ?" /\
  count_char "?" (renumber "a == ? AND b == ?" 1) = 1 /\
  renumber "a == ? AND b == ?" 5 = "a == $1 AND b == $2".
Proof.
  intros segs.
  assert (Forall (fun s => count_char "?" s = 0) segs) as Hq by (repeat constructor).
  destruct (renumber_numbers_first_placeholders segs 1 Hq) as (H1 & H2 & _).
  destruct (renumber_numbers_first_placeholders segs 5 Hq) as (_ & _ & H5).
  split; [exact Hq|]. split; [exact H1|]. split; [exact H2|].
  apply H5. simpl. lia.
Defined.

Lemma doQuery_implicit_transaction_witness :
  heap connected !! 0 = Some session0 /\
  session session0 = Some 0 /\
  tx session0 = None /\
  doQuery (C:=healthy_t) 0 existsStmt [VStr "t"] connected
  = Ret (Some {| rows_id := 2; rows_data := [[VStr "t"]] |}, None)
        (after connected
           [ EvBegin 0;
             EvQuery 1 "SELECT Name FROM __Table WHERE Name == $1" [VStr "t"];
             EvCommit 1 ] 2).
Proof.
  split; [reflexivity|]. split; [reflexivity|]. split; [reflexivity|].
  exact (doQuery_implicit_transaction (C:=healthy_t) 0 session0 0 existsStmt
           [VStr "t"] connected eq_refl eq_refl eq_refl).
Defined.

Lemma explicit_transaction_is_used_directly_witness :
  heap in_transaction !! 0 = Some session_in_tx /\
  session session_in_tx = Some 0 /\
  tx session_in_tx = Some 1 /\
  doExec (C:=healthy_t) 0 insertStmt [VInt 1; VStr "a"] in_transaction
  = Ret (Some {| LastInsertId := 0; RowsAffected := 1 |}, None)
        (after in_transaction
           [EvExec 1 "INSERT INTO t (id, name) VALUES ($1, $2)" [VInt 1; VStr "a"]] 0).
Proof.
  split; [reflexivity|]. split; [reflexivity|]. split; [reflexivity|].
  exact (proj1 (explicit_transaction_is_used_directly (C:=healthy_t) 0 session_in_tx
                  0 1 insertStmt [VInt 1; VStr "a"] in_transaction
                  eq_refl eq_refl eq_refl)).
Defined.

Lemma primitives_return_value_or_error_witness :
  heap connected !! 0 = Some session0 /\
  exists r evs k,
    doExec (C:=engine cat_t broken) 0 insertStmt [VInt 1; VStr "a"] connected
    = Ret r (after connected evs k) /\
    well_shaped (session session0) r.
Proof.
  split; [reflexivity|].
  exact (proj1 (primitives_return_value_or_error (C:=engine cat_t broken) 0 session0
                  insertStmt [VInt 1; VStr "a"] connected eq_refl)).
Defined.

Lemma Open_replaces_the_connection_witness :
  heap connected !! 0 = Some session0 /\
  exists err w',
    Open (C:=engine cat_t cannot_open) 0 connected = Ret err w' /\
    (forall l, l <> 0 -> heap w' !! l = heap connected !! l) /\
    match err with
    | None =>
        "test.db" <> "" /\ heap w' !! 0 = Some (set_session session0 (Some 1)) /\
        trace w' = trace connected ++ [EvOpen "test.db"]
    | Some ErrMissingDatabaseName => "test.db" = "" /\ w' = connected
    | Some (ErrDriver _) =>
        "test.db" <> "" /\ heap w' !! 0 = Some (set_session session0 None) /\
        trace w' = trace connected ++ [EvOpen "test.db"]
    | Some _ => False
    end.
Proof.
  split; [reflexivity|].
  exact (Open_replaces_the_connection (C:=engine cat_t cannot_open) 0 session0
           connected eq_refl).
Defined.

(** A failed re-open of a connected session leaves it without a
    connection. *)
Lemma Open_decides_connectedness_witness :
  let w' := {| heap := [set_session session0 None];
               trace := [EvOpen "test.db"]; next := 1 |} in
  heap connected !! 0 = Some session0 /\
  Open (C:=engine cat_t cannot_open) 0 connected
  = Ret (Some (ErrDriver "cannot open")) w' /\
  doExec (C:=engine cat_t cannot_open) 0 insertStmt [VInt 1; VStr "a"] w'
  = Ret (None, Some ErrNotConnected) w'.
Proof.
  intros w'.
  assert (Open (C:=engine cat_t cannot_open) 0 connected
          = Ret (Some (ErrDriver "cannot open")) w') as Hopen by reflexivity.
  split; [reflexivity|]. split; [exact Hopen|].
  exact (proj1 (Open_decides_connectedness (C:=engine cat_t cannot_open) 0 session0
                  connected _ w' insertStmt [VInt 1; VStr "a"] eq_refl Hopen)).
Defined.

Lemma Use_then_Name_witness :
  heap connected !! 0 = Some session0 /\
  exists err s' w',
    Use (C:=engine cat_t cannot_open) 0 "other.db" connected = Ret err w' /\
    heap w' !! 0 = Some s' /\
    Name 0 w' = Ret "other.db" w' /\
    tx s' = tx session0 /\ collections s' = collections session0 /\
    ("other.db" = "" ->
       err = Some ErrMissingDatabaseName /\ session s' = session session0 /\
       trace w' = trace connected).
Proof.
  split; [reflexivity|].
  exact (Use_then_Name (C:=engine cat_t cannot_open) 0 session0 "other.db"
           connected eq_refl).
Defined.

(** Renaming to the empty name fails and keeps the connection. *)
Example Use_empty_name :
  Use (C:=healthy_t) 0 "" connected
  = Ret (Some ErrMissingDatabaseName)
        {| heap := [ {| config := {| Database := ""; OtherSettings := [] |};
                        session := Some 0; collections := Some ∅; tx := None |} ];
           trace := []; next := 1 |}.
Proof. reflexivity. Qed.

Lemma Setup_stores_settings_witness :
  heap unconnected !! 0 = Some zeroSource /\
  Setup (C:=healthy_t) 0 settings unconnected
  = Ret None {| heap := [ {| config := settings; session := Some 0;
                             collections := Some ∅; tx := None |} ];
                trace := [EvOpen "test.db"]; next := 1 |} /\
  Setup (C:=healthy_t) 0 (config zeroSource) connected
  = Ret (Some ErrMissingDatabaseName)
        {| heap := [ {| config := config zeroSource; session := Some 0;
                        collections := Some ∅; tx := None |} ];
           trace := []; next := 1 |}.
Proof.
  split; [reflexivity|]. split.
  - exact (proj2 (Setup_stores_settings (C:=healthy_t) 0 zeroSource settings
                    unconnected eq_refl)).
  - exact (proj2 (Setup_stores_settings (C:=healthy_t) 0 session0 (config zeroSource)
                    connected eq_refl)).
Defined.

Lemma Transaction_needs_only_the_settings_witness :
  heap idle !! 0 = Some idle_session /\
  session idle_session = None /\
  "test.db" <> "" /\
  Transaction (C:=healthy_t) 0 idle
  = Ret (Some {| Tx_Source := 1 |}, None)
        {| heap := [idle_session; cloned settings (Some 1) (Some 2)];
           trace := [EvOpen "test.db"; EvOpen "test.db"; EvBegin 1];
           next := 3 |}.
Proof.
  assert ("test.db" <> "") as Hdsn by discriminate.
  split; [reflexivity|]. split; [reflexivity|]. split; [exact Hdsn|].
  exact (Transaction_needs_only_the_settings (C:=healthy_t) 0 idle_session idle
           eq_refl Hdsn eq_refl eq_refl).
Defined.

Lemma Transaction_without_database_name_witness :
  heap unconnected !! 0 = Some zeroSource /\
  Database (config zeroSource) = "" /\
  Transaction (C:=healthy_t) 0 unconnected
  = Ret (None, Some ErrMissingDatabaseName)
        {| heap := [zeroSource; cloned (config zeroSource) None None];
           trace := []; next := 0 |}.
Proof.
  split; [reflexivity|]. split; [reflexivity|].
  exact (proj2 (Transaction_without_database_name (C:=healthy_t) 0 zeroSource
                  unconnected eq_refl eq_refl)).
Defined.

Lemma Drop_sends_one_statement_witness :
  heap connected !! 0 = Some session0 /\
  session session0 = Some 0 /\
  tx session0 = None /\
  Drop (C:=healthy_t) 0 connected
  = Ret (Some (ErrDriver "syntax error"))
        (after connected [EvBegin 0; EvQuery 1 "DROP DATABASE test.db" []] 1) /\
  Drop (C:=scripted []) 0 connected
  = Ret None
        (after connected
           [EvBegin 0; EvQuery 1 "DROP DATABASE test.db" []; EvCommit 1] 2).
Proof.
  split; [reflexivity|]. split; [reflexivity|]. split; [reflexivity|]. split.
  - exact (proj2 (proj2 (Drop_sends_one_statement (C:=healthy_t) 0 session0 connected
                           eq_refl)) 0 eq_refl eq_refl).
  - exact (proj2 (proj2 (Drop_sends_one_statement (C:=scripted []) 0 session0 connected
                           eq_refl)) 0 eq_refl eq_refl).
Defined.

(** The sample engine does not know the statement. *)
Example Drop_connected :
  Drop (C:=healthy_t) 0 connected
  = Ret (Some (ErrDriver "syntax error"))
        (after connected [EvBegin 0; EvQuery 1 "DROP DATABASE test.db" []] 1).
Proof. reflexivity. Qed.

Lemma Collections_closes_its_cursor_witness :
  heap connected !! 0 = Some session0 /\
  exists out err evs k,
    Collections (C:=healthy_t) 0 connected = Ret (out, err) (after connected evs k) /\
    match err with
    | None =>
        session session0 <> None /\ query_args evs = [[]] /\
        length (reads evs) = S (length out) /\
        exists rows, closes evs = [rows] /\ reads evs = replicate (S (length out)) rows
    | Some ErrNotConnected => session session0 = None /\ out = [] /\ evs = []
    | Some (ErrDriver _) =>
        session session0 <> None /\ out = [] /\ reads evs = [] /\ closes evs = []
    | Some _ => False
    end.
Proof.
  split; [reflexivity|].
  exact (Collections_closes_its_cursor (C:=healthy_t) 0 session0 connected eq_refl).
Defined.

Lemma tableExists_closes_every_cursor_witness :
  heap connected !! 0 = Some session0 /\
  exists r evs k,
    tableExists (C:=healthy_t) 0 ["t"; "t"; "missing"; "t"] connected
    = Ret r (after connected evs k) /\
    closes evs = reverse (reads evs) /\
    length (reads evs) <= length ["t"; "t"; "missing"; "t"] /\
    NoDup (reads evs) /\
    cursor_events evs
    = (EvNext <$> reads evs) ++ (EvRowsClose <$> reverse (reads evs)).
Proof.
  split; [reflexivity|].
  exact (tableExists_closes_every_cursor (C:=healthy_t) 0 session0
           ["t"; "t"; "missing"; "t"] connected eq_refl).
Defined.

(** Three cursors are opened before the missing name ends the loop;
    they are closed in the reverse order, and the fourth name is not
    asked about. *)
Example tableExists_three_cursors :
  exists evs,
    tableExists (C:=healthy_t) 0 ["t"; "t"; "missing"; "t"] connected
    = Ret (Some ErrCollectionDoesNotExists) (after connected evs 6) /\
    reads evs = [2; 4; 6] /\ closes evs = [6; 4; 2] /\
    cursor_events evs
    = [EvNext 2; EvNext 4; EvNext 6; EvRowsClose 6; EvRowsClose 4; EvRowsClose 2] /\
    query_args evs = [[VStr "t"]; [VStr "t"]; [VStr "missing"]].
Proof. eexists. split; [vm_compute; reflexivity|]. by repeat split. Qed.

Lemma tableExists_queries_names_in_order_witness :
  let w1 := after connected
              [ EvBegin 0;
                EvQuery 1 "SELECT Name FROM __Table WHERE Name == $1" [VStr "t"];
                EvCommit 1; EvNext 2;
                EvBegin 0;
                EvQuery 3 "SELECT Name FROM __Table WHERE Name == $1" [VStr "missing"];
                EvCommit 3; EvNext 4; EvRowsClose 4; EvRowsClose 2 ] 4 in
  heap connected !! 0 = Some session0 /\
  tableExists (C:=healthy_t) 0 ["t"; "missing"] connected
  = Ret (Some ErrCollectionDoesNotExists) w1 /\
  tableExists (C:=healthy_t) 0 (["t"; "missing"] ++ ["t"; "other"]) connected
  = Ret (Some ErrCollectionDoesNotExists) w1 /\
  exists r evs k,
    tableExists (C:=healthy_t) 0 ["t"; "missing"] connected
    = Ret r (after connected evs k) /\
    query_args evs `prefix_of` ((fun name => [VStr name]) <$> ["t"; "missing"]) /\
    (r = None -> query_args evs = (fun name => [VStr name]) <$> ["t"; "missing"]) /\
    (["t"; "missing"] = [] -> r = None /\ evs = []).
Proof.
  intros w1.
  assert (tableExists (C:=healthy_t) 0 ["t"; "missing"] connected
          = Ret (Some ErrCollectionDoesNotExists) w1) as Hrun
    by (vm_compute; reflexivity).
  pose proof (tableExists_queries_names_in_order (C:=healthy_t) 0 session0
                ["t"; "missing"] connected eq_refl) as [Horder Hstop].
  split; [reflexivity|]. split; [exact Hrun|].
  split; [exact (Hstop ["t"; "other"] _ w1 Hrun) | exact Horder].
Defined.

Lemma Collection_when_not_connected_witness :
  heap idle !! 0 = Some idle_session /\
  session idle_session = None /\
  Collection (C:=healthy_t) 0 ["t"] idle
  = Ret (None, Some ErrCollectionDoesNotExists) idle /\
  Collection (C:=healthy_t) 0 [] idle
  = Ret (None, Some ErrMissingCollectionName) idle.
Proof.
  split; [reflexivity|]. split; [reflexivity|]. split.
  - exact (Collection_when_not_connected (C:=healthy_t) 0 idle_session ["t"] idle
             eq_refl eq_refl).
  - exact (Collection_when_not_connected (C:=healthy_t) 0 idle_session [] idle
             eq_refl eq_refl).
Defined.

Lemma Collection_stops_at_first_failure_witness :
  let w1 := after connected
              [ EvBegin 0;
                EvQuery 1 "SELECT Name FROM __Table WHERE Name == $1" [VStr "missing"];
                EvCommit 1; EvNext 2; EvRowsClose 2 ] 2 in
  Collection (C:=healthy_t) 0 ["missing"] connected
  = Ret (None, Some ErrCollectionDoesNotExists) w1 /\
  ["missing"] <> [] /\
  Collection (C:=healthy_t) 0 (["missing"] ++ ["t"; "t x"]) connected
  = Ret (None, Some ErrCollectionDoesNotExists) w1.
Proof.
  intros w1.
  assert (Collection (C:=healthy_t) 0 ["missing"] connected
          = Ret (None, Some ErrCollectionDoesNotExists) w1) as Hrun
    by (vm_compute; reflexivity).
  assert (["missing"] <> []) as Hne by discriminate.
  split; [exact Hrun|]. split; [exact Hne|].
  exact (Collection_stops_at_first_failure (C:=healthy_t) 0 ["missing"] ["t"; "t x"]
           connected _ w1 Hrun Hne).
Defined.

Lemma column_types_last_row_wins_witness :
  (column_key (C:=healthy_t) {| ColumnName := "NAME"; DataType := "int" |}
     ∉ (column_key (C:=healthy_t) <$> [])) /\
  column_types (C:=healthy_t) clashing_rows !! "name" = Some reflect.Int.
Proof.
  assert (column_key (C:=healthy_t) {| ColumnName := "NAME"; DataType := "int" |}
            ∉ (column_key (C:=healthy_t) <$> [])) as Hlast by apply not_elem_of_nil.
  split; [exact Hlast|].
  exact (proj1 (column_types_last_row_wins (C:=healthy_t))
           [ {| ColumnName := "Name"; DataType := "string" |} ]
           {| ColumnName := "NAME"; DataType := "int" |} [] Hlast).
Defined.

Lemma first_chunk_and_modifier_witness :
  count_char " " "people" = 0 /\
  first_token "people" = "people".
Proof.
  destruct (first_chunk_and_modifier "people") as (tl & _ & _ & Hplain & _).
  destruct (Hplain eq_refl) as [_ Htoken].
  split; [reflexivity | exact Htoken].
Defined.

Example first_chunk_of_a_modified_name :
  SplitN2 "t AS people" = ["t"; "AS people"] /\ first_token "t AS people" = "t".
Proof. by split. Qed.

End MoreRuns.
